(** * Game of Life engine, worker host and client proxy

    A shallow embedding of [lib/life.model.ts], [lib/life.msg.ts], [work.js]
    (the [Signal] class and the worker entry point) and the [ModelInWorker]
    proxy of [life.ts], followed by the properties of the specification that
    were checked against it. *)

From stdpp Require Import base decidable option list gmap sets.
From Stdlib Require Import ZArith Lia.

Local Open Scope Z_scope.

(** ** JavaScript values used by the engine

    Every number the engine handles is an integer well inside the range in
    which doubles are exact, so numbers are [Z].  A read that can yield
    [undefined] (an index outside a typed array) or an arithmetic result that
    can be [NaN] is an [option Z] with [None] for both: the engine only ever
    compares such a value, and [undefined] and [NaN] compare alike against a
    number. *)
Module JS.

(** [a | 0] on an integer [a]: ToInt32, wrap-around modulo 2^32 into
    [-2^31, 2^31). *)
Definition to_int32 (a : Z) : Z := (a + 2 ^ 31) mod 2 ^ 32 - 2 ^ 31.

(** [a % b] for a divisor other than 0: the remainder has the sign of the
    dividend.  The engine divides by [cols] and [rows] only; on a board
    without columns or rows JavaScript has [NaN] where [Z.rem a 0] is [a],
    and the properties about coordinates are for boards with both. *)
Definition rem (a b : Z) : Z := Z.rem a b.

(** [(a / b) | 0] on integers: the quotient truncated towards zero, then
    ToInt32. *)
Definition div_int (a b : Z) : Z := to_int32 (Z.quot a b).

(** [a + b] where either side may be [undefined] or [NaN]. *)
Definition add (a b : option Z) : option Z :=
  match a, b with
  | Some x, Some y => Some (x + y)
  | _, _ => None
  end.

(** [a == k] for a number literal [k]. *)
Definition eq_num (a : option Z) (k : Z) : bool :=
  match a with
  | Some x => x =? k
  | None => false
  end.

(** [a > 0]; [undefined > 0] is [false]. *)
Definition gt0 (a : option Z) : bool :=
  match a with
  | Some x => 0 <? x
  | None => false
  end.

(** [a != b] where each side is a number or [undefined] (never [NaN]). *)
Definition neq (a b : option Z) : bool :=
  match a, b with
  | Some x, Some y => negb (x =? y)
  | None, None => false
  | _, _ => true
  end.

(** [v & 1]. *)
Definition low_bit (v : Z) : Z := Z.land v 1.

(** [arr[i]] on an [Int8Array]: [undefined] outside the array. *)
Definition read (arr : list Z) (i : Z) : option Z :=
  if i <? 0 then None else arr !! Z.to_nat i.

(** [arr[i] = v] on an [Int8Array]: a store outside the array is ignored. *)
Definition write (arr : list Z) (i : Z) (v : Z) : list Z :=
  if i <? 0 then arr else <[Z.to_nat i := v]> arr.

End JS.

(** ** life.common.ts *)

Record Changes := mkChanges {
  born : list Z;
  survived : list Z;
  died : list Z
}.

(** ** life.model.ts *)

(** The fields of a [Model].  [didChange] is the engine's [Signal]; what the
    engine does with it is to [raise] it with a [Changes] object, and
    [raised] records those calls, oldest first. *)
Record Model := mkModel {
  grid : list Z;
  alive : list Z;
  rows : Z;
  cols : Z;
  raised : list Changes
}.

(** The object that [new Model(cols, rows)] yields when [cols * rows] is not
    negative: a zero-filled [Int8Array] of that length and an empty
    Live-Set. *)
Definition new_Model (c r : Z) : Model :=
  {| grid := replicate (Z.to_nat (c * r)) 0;
     alive := [];
     rows := r;
     cols := c;
     raised := [] |}.

(** [new Model(cols, rows)].  [None]: the constructor threw;
    [new Int8Array(cols * rows)] raises a RangeError for a negative length.
    (The largest typed array an engine will make is not modelled.) *)
Definition Model_constructor (c r : Z) : option Model :=
  if c * r <? 0 then None else Some (new_Model c r).

Definition indexFor (m : Model) (x y : Z) : Z :=
  JS.rem (rows m + y) (rows m) * cols m + JS.rem (cols m + x) (cols m).

(** [get] reads the grid and returns; the model it is called on is handed
    back next to the result, as for every other method. *)
Definition get (m : Model) (index : Z) : bool * Model :=
  (JS.gt0 (JS.read (grid m) index), m).

Definition size (m : Model) : Z := Z.of_nat (length (grid m)).

(** One step of the callback of [vals.forEach] in [init]. *)
Definition init_step (i : Z) (v : Z) (st : list Z * list Z) : list Z * list Z :=
  let '(g, al) := st in
  let val := JS.low_bit v in
  let g' := JS.write g i val in
  if 0 <? val then (g', al ++ [i]) else (g', al).

Fixpoint init_loop (i : Z) (vals : list Z) (st : list Z * list Z)
  : list Z * list Z :=
  match vals with
  | [] => st
  | v :: vals' => init_loop (i + 1) vals' (init_step i v st)
  end.

Definition init (m : Model) (vals : list Z) : Changes * Model :=
  let '(g, al) := init_loop 0 vals (grid m, alive m) in
  let changes := {| born := al; died := []; survived := [] |} in
  (changes,
   {| grid := g; alive := al; rows := rows m; cols := cols m;
      raised := raised m ++ [changes] |}).

Definition neighborsOf (m : Model) (index : Z) : list Z :=
  let x := JS.rem index (cols m) in
  let y := JS.div_int index (cols m) in
  [ indexFor m (x - 1) (y - 1);
    indexFor m x       (y - 1);
    indexFor m (x + 1) (y - 1);
    indexFor m (x - 1) y;
    indexFor m (x + 1) y;
    indexFor m (x - 1) (y + 1);
    indexFor m x       (y + 1);
    indexFor m (x + 1) (y + 1) ].

(** The sum [grid[neighbors[0]] + ... + grid[neighbors[7]]], left to right. *)
Definition neighbor_count (g : list Z) (ns : list Z) : option Z :=
  match ns with
  | [] => None
  | n0 :: ns' => fold_left (fun acc n => JS.add acc (JS.read g n)) ns' (JS.read g n0)
  end.

Definition nextFor (m : Model) (index : Z) : option Z :=
  let count := neighbor_count (grid m) (neighborsOf m index) in
  if JS.eq_num count 3 then Some 1
  else if JS.eq_num count 2 then JS.read (grid m) index
  else Some 0.

(** [if (!included[index]) { active.push(index); included[index] = true; }] *)
Definition mark (index : Z) (st : gset Z * list Z) : gset Z * list Z :=
  let '(included, active) := st in
  if decide (index ∈ included) then st
  else ({[index]} ∪ included, active ++ [index]).

(** The body of the outer loop of [activeCells] for one live index. *)
Definition mark_cell (m : Model) (st : gset Z * list Z) (index : Z)
  : gset Z * list Z :=
  fold_left (fun s j => mark j s) (neighborsOf m index) (mark index st).

Definition activeCells (m : Model) : list Z :=
  snd (fold_left (mark_cell m) (alive m) (∅, [])).

(** The four arrays filled by the first loop of [next]. *)
Record Buckets := mkBuckets {
  b_alive : list Z;
  b_born : list Z;
  b_died : list Z;
  b_survived : list Z
}.

Definition classify (m : Model) (b : Buckets) (index : Z) : Buckets :=
  let next := nextFor m index in
  let current := JS.read (grid m) index in
  let b1 :=
    if JS.gt0 next
    then {| b_alive := b_alive b ++ [index]; b_born := b_born b;
            b_died := b_died b; b_survived := b_survived b |}
    else b in
  if JS.neq current next then
    if JS.gt0 next
    then {| b_alive := b_alive b1; b_born := b_born b1 ++ [index];
            b_died := b_died b1; b_survived := b_survived b1 |}
    else {| b_alive := b_alive b1; b_born := b_born b1;
            b_died := b_died b1 ++ [index]; b_survived := b_survived b1 |}
  else if JS.gt0 next
    then {| b_alive := b_alive b1; b_born := b_born b1;
            b_died := b_died b1; b_survived := b_survived b1 ++ [index] |}
    else b1.

Definition commit (g : list Z) (ixs : list Z) (v : Z) : list Z :=
  fold_left (fun g' i => JS.write g' i v) ixs g.

Definition next (m : Model) : Changes * Model :=
  let active := activeCells m in
  let b := fold_left (classify m) active (mkBuckets [] [] [] []) in
  let g1 := commit (grid m) (b_born b) 1 in
  let g2 := commit g1 (b_died b) 0 in
  let changes := {| born := b_born b; died := b_died b;
                    survived := b_survived b |} in
  (changes,
   {| grid := g2; alive := b_alive b; rows := rows m; cols := cols m;
      raised := raised m ++ [changes] |}).

(** ** life.msg.ts *)

Inductive Msg :=
| InitLife (c r : Z) (values : list Z)
| NeedSome (n : Z)
| HereSome (changes : list Changes).

(** ** signal.ts (as compiled into work.js)

    [this.listeners] is a reference to an array object, and listeners are
    functions that may themselves call [tap] and [untap] on the signal that is
    calling them.  Array objects therefore live in a store addressed by
    position, [listeners] holds an address, and [slice(0)] allocates. *)
Module Signal.

(** A listener is known by its identity, as [indexOf] compares it. *)
Definition fn := nat.

(** What a listener may do to the signal while it runs. *)
Inductive Op :=
| Tap (l : fn)
| Untap (l : fn).

Record State {Arg : Type} := mkState {
  arrays : list (list fn);
  listeners : nat;
  calls : list (fn * Arg)
}.
Global Arguments State : clear implicits.
Global Arguments mkState {Arg} _ _ _.

Section Methods.
Context {Arg : Type}.
(** The body of each listener function. *)
Variable body : fn → list Op.

(** [new Signal]: [this.listeners = []] *)
Definition create : State Arg :=
  {| arrays := [[]]; listeners := 0%nat; calls := [] |}.

(** The array object [this.listeners] refers to. *)
Definition current (s : State Arg) : list fn :=
  default [] (arrays s !! listeners s).

(** [this.listeners = this.listeners.slice(0)] *)
Definition slice0 (s : State Arg) : State Arg :=
  {| arrays := arrays s ++ [current s];
     listeners := length (arrays s);
     calls := calls s |}.

(** [this.listeners.push(l)]: in place, on the array referred to. *)
Definition push (l : fn) (s : State Arg) : State Arg :=
  {| arrays := alter (λ a, a ++ [l]) (listeners s) (arrays s);
     listeners := listeners s;
     calls := calls s |}.

(** [this.listeners.splice(ix, 1)]: in place as well. *)
Definition splice1 (ix : nat) (s : State Arg) : State Arg :=
  {| arrays := alter (delete ix) (listeners s) (arrays s);
     listeners := listeners s;
     calls := calls s |}.

(** [a.indexOf(l)], [None] for -1. *)
Fixpoint indexOf (a : list fn) (l : fn) : option nat :=
  match a with
  | [] => None
  | x :: a' => if decide (x = l) then Some 0%nat else S <$> indexOf a' l
  end.

Definition tap (l : fn) (s : State Arg) : State Arg :=
  push l (slice0 s).

Definition untap (l : fn) (s : State Arg) : State Arg :=
  match indexOf (current s) l with
  | None => s
  | Some ix => splice1 ix (slice0 s)
  end.

Definition run_op (s : State Arg) (o : Op) : State Arg :=
  match o with
  | Tap l => tap l s
  | Untap l => untap l s
  end.

(** [l.apply(_this, args)] *)
Definition call (l : fn) (args : Arg) (s : State Arg) : State Arg :=
  fold_left run_op (body l)
    {| arrays := arrays s; listeners := listeners s;
       calls := calls s ++ [(l, args)] |}.

(** [forEach] on the array object at [addr]: the length was read once,
    before the first call; at each position the element is read from the
    store as it is then, and a position no longer present is skipped. *)
Fixpoint forEach_from (addr : nat) (k rest : nat) (args : Arg)
    (s : State Arg) : State Arg :=
  match rest with
  | O => s
  | S rest' =>
      let s' :=
        match arrays s !! addr ≫= (.!! k) with
        | Some l => call l args s
        | None => s
        end in
      forEach_from addr (S k) rest' args s'
  end.

Definition raise (args : Arg) (s : State Arg) : State Arg :=
  let addr := listeners s in
  forEach_from addr 0 (length (current s)) args s.

End Methods.
End Signal.

(** ** work.js: the worker entry point

    [model] is the module-level variable, [undefined] until the first
    [InitLife]; [sent] records the calls of [postMessage]. *)
Module Host.

Record Worker := mkWorker {
  model : option Model;
  sent : list Msg
}.

Definition start : Worker := {| model := None; sent := [] |}.

Definition send (w : Worker) (msg : Msg) : Worker :=
  {| model := model w; sent := sent w ++ [msg] |}.

(** [None]: the handler threw.  In [initLife] that is the constructor of
    the engine, before [model] is assigned and before anything is sent. *)
Definition initLife (w : Worker) (c r : Z) (values : list Z)
  : option Worker :=
  m0 ← Model_constructor c r;
  let '(changes, m) := init m0 values in
  Some (send {| model := Some m; sent := sent w |} (HereSome [changes])).

(** The loop of [needSome], [k] iterations left. *)
Fixpoint needSome_loop (k : nat) (m : Model) (changes : list Changes)
  : list Changes * Model :=
  match k with
  | O => (changes, m)
  | S k' =>
      let '(c, m') := next m in
      needSome_loop k' m' (changes ++ [c])
  end.

(** [None]: the handler threw ([model] is [undefined] and the loop body
    ran). *)
Definition needSome (w : Worker) (n : Z) : option Worker :=
  match Z.to_nat n, model w with
  | O, _ => Some (send w (HereSome []))
  | S _, None => None
  | k, Some m =>
      let '(changes, m') := needSome_loop k m [] in
      Some (send {| model := Some m'; sent := sent w |} (HereSome changes))
  end.

Definition onmessage (w : Worker) (msg : Msg) : option Worker :=
  match msg with
  | InitLife c r values => initLife w c r values
  | NeedSome n => needSome w n
  | HereSome _ => Some w
  end.

End Host.

(** ** life.ts: [ModelInWorker]

    [posted] records the messages given to [worker.postMessage], [notified]
    the arguments of [didChange.raise], both oldest first.  The configuration
    drawn by the module-level [randomize(size, fill)] from [Math.random] is an
    argument of the method. *)
Module Proxy.

Record ModelInWorker := mkProxy {
  cols : Z;
  rows : Z;
  changes : list Changes;
  lastChange : Changes;
  pendingRequests : Z;
  posted : list Msg;
  notified : list Changes
}.

(** One iteration of the loop of [worker.onmessage]. *)
Definition receive (p : ModelInWorker) (c : Changes) : ModelInWorker :=
  if 0 <? pendingRequests p then
    {| cols := cols p; rows := rows p; changes := changes p;
       lastChange := lastChange p;
       pendingRequests := pendingRequests p - 1;
       posted := posted p;
       notified := notified p ++ [c] |}
  else
    {| cols := cols p; rows := rows p; changes := changes p ++ [c];
       lastChange := lastChange p;
       pendingRequests := pendingRequests p;
       posted := posted p;
       notified := notified p |}.

Definition onmessage (p : ModelInWorker) (msg : Msg) : ModelInWorker :=
  match msg with
  | HereSome cs => fold_left receive cs p
  | _ => p
  end.

Definition init (p : ModelInWorker) (values : list Z) : ModelInWorker :=
  {| cols := cols p; rows := rows p; changes := changes p;
     lastChange := lastChange p;
     pendingRequests := pendingRequests p;
     posted := posted p ++ [InitLife (cols p) (rows p) values; NeedSome 20];
     notified := notified p |}.

Definition constructor (c r : Z) (values : list Z) : ModelInWorker :=
  init {| cols := c; rows := r; changes := [];
          lastChange := {| born := []; survived := []; died := [] |};
          pendingRequests := 0; posted := []; notified := [] |}
       values.

(** Whether the call [randomize(this.rows * this.cols, 0.1)] that opens
    [randomize()] returns: [Array(size)] raises a RangeError unless [size]
    is an array length. *)
Definition can_draw (p : ModelInWorker) : bool :=
  bool_decide (0 ≤ rows p * cols p < 2 ^ 32).

(** [randomize()] once that call has returned [values]. *)
Definition randomize (p : ModelInWorker) (values : list Z) : ModelInWorker :=
  let died := born (lastChange p) ++ survived (lastChange p) in
  init {| cols := cols p; rows := rows p;
          changes := [ {| born := []; survived := []; died := died |} ];
          lastChange := lastChange p;
          pendingRequests := pendingRequests p;
          posted := posted p;
          notified := notified p |}
       values.

Definition next (p : ModelInWorker) : ModelInWorker :=
  match changes p with
  | [] =>
      {| cols := cols p; rows := rows p; changes := [];
         lastChange := lastChange p;
         pendingRequests := pendingRequests p + 1;
         posted := posted p;
         notified := notified p |}
  | c :: rest =>
      {| cols := cols p; rows := rows p; changes := rest;
         lastChange := c;
         pendingRequests := pendingRequests p;
         posted := if Z.of_nat (length rest) <=? 2
                   then posted p ++ [NeedSome 20] else posted p;
         notified := notified p ++ [c] |}
  end.

End Proxy.

(** ** The proxy and the worker on their two message ports

    Messages travel in order in both directions and the worker answers every
    request with one response.  Each request in flight is paired with the
    number of [randomize] calls the proxy had made when it posted it, and a
    response keeps the number of the request it answers.  These numbers are
    bookkeeping of this model only: neither [Msg] nor [ModelInWorker] has a
    field for them.  A call or a handler that throws leaves the object it
    belongs to as it was, and the two sides go on. *)
Module System.

Record State := mkSystem {
  proxy : Proxy.ModelInWorker;
  worker : Host.Worker;
  epoch : nat;
  requests : list (nat * Msg);
  responses : list (nat * Msg)
}.

Inductive Event :=
| Pull                          (* the consumer calls [next()] *)
| Randomize (values : list Z)   (* the consumer calls [randomize()] *)
| Work                          (* the worker handles its next request *)
| Deliver.                      (* the proxy handles its next response *)

(** The messages [q] has posted that [p] had not. *)
Definition newly_posted (p q : Proxy.ModelInWorker) : list Msg :=
  drop (length (Proxy.posted p)) (Proxy.posted q).

Definition newly_sent (w w' : Host.Worker) : list Msg :=
  drop (length (Host.sent w)) (Host.sent w').

Definition boot (c r : Z) (values : list Z) : State :=
  let p := Proxy.constructor c r values in
  {| proxy := p; worker := Host.start; epoch := 0%nat;
     requests := (λ msg, (0%nat, msg)) <$> Proxy.posted p;
     responses := [] |}.

Definition step (s : State) (ev : Event) : option State :=
  match ev with
  | Pull =>
      let p := Proxy.next (proxy s) in
      Some {| proxy := p; worker := worker s; epoch := epoch s;
              requests := requests s ++
                ((λ msg, (epoch s, msg)) <$> newly_posted (proxy s) p);
              responses := responses s |}
  | Randomize values =>
      if Proxy.can_draw (proxy s) then
        let p := Proxy.randomize (proxy s) values in
        let e := S (epoch s) in
        Some {| proxy := p; worker := worker s; epoch := e;
                requests := requests s ++
                  ((λ msg, (e, msg)) <$> newly_posted (proxy s) p);
                responses := responses s |}
      else Some s
  | Work =>
      match requests s with
      | [] => Some s
      | (e, msg) :: rest =>
          match Host.onmessage (worker s) msg with
          | Some w =>
              Some {| proxy := proxy s; worker := w; epoch := epoch s;
                      requests := rest;
                      responses := responses s ++
                        ((λ r, (e, r)) <$> newly_sent (worker s) w) |}
          | None =>
              Some {| proxy := proxy s; worker := worker s;
                      epoch := epoch s; requests := rest;
                      responses := responses s |}
          end
      end
  | Deliver =>
      match responses s with
      | [] => Some s
      | (_, msg) :: rest =>
          Some {| proxy := Proxy.onmessage (proxy s) msg;
                  worker := worker s; epoch := epoch s;
                  requests := requests s;
                  responses := rest |}
      end
  end.

Fixpoint run (evs : list Event) (s : State) : option State :=
  match evs with
  | [] => Some s
  | ev :: evs' => s' ← step s ev; run evs' s'
  end.

(** The statement that a response answering a request from before the last
    [randomize] leaves the buffer queue and the listeners alone. *)
Definition stale_responses_dropped : Prop :=
  ∀ c r values evs s e msg rest,
    run evs (boot c r values) = Some s →
    responses s = (e, msg) :: rest →
    (e < epoch s)%nat →
    Proxy.changes (Proxy.onmessage (proxy s) msg) = Proxy.changes (proxy s) ∧
    Proxy.notified (Proxy.onmessage (proxy s) msg) = Proxy.notified (proxy s).

End System.

(** ** Conway's rule on a torus, as the specification words it

    The cell at column [x], row [y] has index [y * cols + x]; coordinates are
    reduced with the mathematical [mod], so every integer pair names a cell. *)
Module Conway.

Definition torus_index (c r x y : Z) : Z := (y mod r) * c + (x mod c).

(** Upper left first, row by row. *)
Definition offsets : list (Z * Z) :=
  [ (-1, -1); (0, -1); (1, -1); (-1, 0); (1, 0); (-1, 1); (0, 1); (1, 1) ].

Definition neighbors (c r i : Z) : list Z :=
  (λ d, torus_index c r (i mod c + d.1) (i / c + d.2)) <$> offsets.

Definition cell (g : list Z) (i : Z) : Z :=
  default 0 (g !! Z.to_nat i).

Definition neighbor_sum (c r : Z) (g : list Z) (i : Z) : Z :=
  foldr Z.add 0 (cell g <$> neighbors c r i).

Definition rule (s cur : Z) : Z :=
  if s =? 3 then 1 else if s =? 2 then cur else 0.

(** One generation, every cell at once from the old grid. *)
Definition step (c r : Z) (g : list Z) : list Z :=
  imap (λ i cur, rule (neighbor_sum c r g (Z.of_nat i)) cur) g.

(** The live cells and their neighbours. *)
Definition active_region (c r : Z) (live : list Z) (i : Z) : Prop :=
  i ∈ live ∨ ∃ a, a ∈ live ∧ i ∈ neighbors c r a.

(** The grid of [c] columns and [r] rows whose live cells are those at
    the coordinates that satisfy [P]. *)
Definition pattern (c r : Z) (P : Z → Z → bool) : list Z :=
  (λ i : nat, Z.b2z (P (Z.of_nat i mod c) (Z.of_nat i / c))) <$>
    seq 0 (Z.to_nat (c * r)).

(** [d] is -1, 0 or 1 modulo [n]. *)
Definition within_one (n d : Z) : bool :=
  (d mod n =? n - 1) || (d mod n =? 0) || (d mod n =? 1).

(** The three cells of row [y] at columns [x - 1], [x], [x + 1], and the
    three of column [x] at rows [y - 1], [y], [y + 1], around the torus. *)
Definition horizontal_blinker (c r x y : Z) : list Z :=
  pattern c r (λ x' y', (y' =? y) && within_one c (x' - x)).

Definition vertical_blinker (c r x y : Z) : list Z :=
  pattern c r (λ x' y', (x' =? x) && within_one r (y' - y)).

End Conway.

(** ** Engine states *)

(** What the constructor and the class comments establish: positive
    dimensions, a grid of [cols * rows] cells holding 0 or 1, row numbers
    that [| 0] leaves alone, and a Live-Set of grid indices. *)
Record engine_ok (m : Model) : Prop := mk_engine_ok {
  ok_cols : 0 < cols m;
  ok_rows : 0 < rows m;
  ok_int32 : rows m ≤ 2 ^ 31;
  ok_size : size m = cols m * rows m;
  ok_binary : Forall (λ v, v = 0 ∨ v = 1) (grid m);
  ok_alive : Forall (λ i, 0 ≤ i < size m) (alive m)
}.

(** The indices of the grid, in order. *)
Definition indices (g : list Z) : list Z :=
  Z.of_nat <$> seq 0 (length g).

(** The Live-Set is the set of the grid indices that hold 1. *)
Definition live_ok (m : Model) : Prop :=
  Forall (λ i, JS.read (grid m) i = Some 1) (alive m) ∧
  Forall (λ i, JS.read (grid m) i = Some 1 → i ∈ alive m) (indices (grid m)).

(** The indices [i] of [vals] with [vals[i] & 1] equal to 1, counted from
    [start]. *)
Fixpoint odd_indices (start : Z) (vals : list Z) : list Z :=
  match vals with
  | [] => []
  | v :: vals' =>
      if 0 <? JS.low_bit v then start :: odd_indices (start + 1) vals'
      else odd_indices (start + 1) vals'
  end.

(** The two tests of the first loop of [next]: [next > 0] and
    [current != next]. *)
Definition will_live (m : Model) (index : Z) : bool :=
  JS.gt0 (nextFor m index).

Definition will_change (m : Model) (index : Z) : bool :=
  JS.neq (JS.read (grid m) index) (nextFor m index).

(** The state of the loops of [activeCells]: [included] marks exactly the
    indices pushed so far, each pushed once. *)
Definition marks_ok (st : gset Z * list Z) : Prop :=
  NoDup st.2 ∧ ∀ i, i ∈ st.1 ↔ i ∈ st.2.

(** [get] before and after a call of [next]. *)
Definition alive_before (m : Model) (i : Z) : Prop := (get m i).1 = true.
Definition alive_after (m : Model) (i : Z) : Prop := (get (next m).2 i).1 = true.

(** The reporting rule as the specification words it: the three sequences
    are pairwise disjoint and hold exactly the cells of the active region
    that are alive afterwards or were alive before and still are. *)
Definition reports_alive_after_only (m : Model) : Prop :=
  let ch := (next m).1 in
  (∀ i, ¬ (i ∈ born ch ∧ i ∈ died ch)) ∧
  (∀ i, ¬ (i ∈ born ch ∧ i ∈ survived ch)) ∧
  (∀ i, ¬ (i ∈ died ch ∧ i ∈ survived ch)) ∧
  ∀ i, i ∈ born ch ++ died ch ++ survived ch ↔
       Conway.active_region (cols m) (rows m) (alive m) i ∧
       (alive_after m i ∨ (alive_before m i ∧ alive_after m i)).

(** What a resetting [init] leaves: the grid is the low bits of the values,
    the Live-Set is the set of the indices holding 1, and the change set,
    returned and raised, has that Live-Set as [born] and nothing else. *)
Definition init_resets (m : Model) (vals : list Z) : Prop :=
  let r := init m vals in
  grid r.2 = JS.low_bit <$> vals ∧
  live_ok r.2 ∧
  r.1 = {| born := alive r.2; survived := []; died := [] |} ∧
  raised r.2 = raised m ++ [r.1].


(** The worker handling a sequence of messages, one after the other. *)
Fixpoint handle_all (w : Host.Worker) (msgs : list Msg) : option Host.Worker :=
  match msgs with
  | [] => Some w
  | msg :: msgs' => w' ← Host.onmessage w msg; handle_all w' msgs'
  end.

(** ** Successive generations

    The engine after [k] calls of [next()], and the change sets that the
    first [n] calls return: the first is that of [next()] on the engine as
    it is, each further one that of [next()] on the engine the call before
    has left. *)
Definition advance (m : Model) : Model := (next m).2.

Definition generation (k : nat) (m : Model) : Model := Nat.iter k advance m.

Definition first_changes (n : nat) (m : Model) : list Changes :=
  (λ k, (next (generation k m)).1) <$> seq 0 n.

(** ** A block *)

(** [d] is 0 or 1 modulo [n]. *)
Definition zero_or_one (n d : Z) : bool :=
  (d mod n =? 0) || (d mod n =? 1).

(** The grid whose live cells are the four at columns [x], [x + 1] and rows
    [y], [y + 1], around the torus. *)
Definition block (c r x y : Z) : list Z :=
  Conway.pattern c r (λ x' y', zero_or_one c (x' - x) && zero_or_one r (y' - y)).

(** ** Counting messages *)

(** The messages the worker's dispatcher has a case for. *)
Definition is_request (msg : Msg) : bool :=
  match msg with
  | InitLife _ _ _ | NeedSome _ => true
  | HereSome _ => false
  end.

Definition is_response (msg : Msg) : bool :=
  match msg with
  | HereSome _ => true
  | _ => false
  end.

(** ** What happens to a proxy *)

(** The consumer calls [next()], or a [HereSome] with these change sets
    arrives from the worker. *)
Inductive Happening :=
| Pulled
| Arrived (cs : list Changes).

Definition happen (p : Proxy.ModelInWorker) (h : Happening)
  : Proxy.ModelInWorker :=
  match h with
  | Pulled => Proxy.next p
  | Arrived cs => Proxy.onmessage p (HereSome cs)
  end.

(** The number of pulls and the change sets arrived, in order of arrival. *)
Fixpoint pulls (hs : list Happening) : nat :=
  match hs with
  | [] => 0
  | Pulled :: hs' => S (pulls hs')
  | Arrived _ :: hs' => pulls hs'
  end.

Fixpoint arrivals (hs : list Happening) : list Changes :=
  match hs with
  | [] => []
  | Pulled :: hs' => arrivals hs'
  | Arrived cs :: hs' => cs ++ arrivals hs'
  end.

(** * Properties *)

(** ** The event notifier *)

Section SignalFacts.
Context {Arg : Type}.
Variable body : Signal.fn → list Signal.Op.

Import Signal.

Lemma slice0_arrays (s : State Arg) :
  arrays (slice0 s) = arrays s ++ [current s] ∧
  listeners (slice0 s) = length (arrays s).
Proof. done. Qed.

(** [tap] and [untap] write to a freshly allocated array only. *)
Lemma run_op_frame (s : State Arg) (o : Op) (a : nat) :
  (a < length (arrays s))%nat →
  arrays (run_op s o) !! a = arrays s !! a ∧
  (length (arrays s) ≤ length (arrays (run_op s o)))%nat ∧
  calls (run_op s o) = calls s.
Proof.
  intros Ha. destruct o as [l|l]; simpl.
  - unfold tap, push; simpl. rewrite length_alter, length_app; simpl.
    split_and!; [|lia|done].
    rewrite list_lookup_alter_ne by lia. by rewrite lookup_app_l.
  - unfold untap. destruct (indexOf _ _) as [ix|]; [|done].
    unfold splice1; simpl. rewrite length_alter, length_app; simpl.
    split_and!; [|lia|done].
    rewrite list_lookup_alter_ne by lia. by rewrite lookup_app_l.
Qed.

Lemma run_ops_frame (ops : list Op) (s : State Arg) (a : nat) :
  (a < length (arrays s))%nat →
  arrays (fold_left run_op ops s) !! a = arrays s !! a ∧
  calls (fold_left run_op ops s) = calls s.
Proof.
  revert s. induction ops as [|o ops IH]; intros s Ha; [done|]. simpl.
  destruct (run_op_frame s o a Ha) as (E1 & E2 & E3).
  destruct (IH (run_op s o)) as [F1 F2]; [lia|].
  rewrite F1, F2. done.
Qed.

Lemma call_frame (l : fn) (args : Arg) (s : State Arg) (a : nat) :
  (a < length (arrays s))%nat →
  arrays (call body l args s) !! a = arrays s !! a ∧
  calls (call body l args s) = calls s ++ [(l, args)].
Proof.
  intros Ha. unfold call.
  by destruct (run_ops_frame (body l)
    {| arrays := arrays s; listeners := listeners s;
       calls := calls s ++ [(l, args)] |} a Ha).
Qed.

Lemma forEach_from_calls (rest k addr : nat) (args : Arg) (s : State Arg)
    (arr : list fn) :
  arrays s !! addr = Some arr →
  (k + rest)%nat = length arr →
  calls (forEach_from body addr k rest args s) =
    calls s ++ ((λ l, (l, args)) <$> drop k arr).
Proof.
  revert k s. induction rest as [|rest IH]; intros k s Harr Hlen; simpl.
  - rewrite drop_ge by lia. by rewrite app_nil_r.
  - rewrite Harr; simpl.
    destruct (lookup_lt_is_Some_2 arr k) as [l Hl]; [lia|].
    rewrite Hl.
    destruct (call_frame l args s addr) as [E1 E2];
      [by eapply lookup_lt_Some|].
    rewrite (IH (S k) (call body l args s)); [|congruence|lia].
    rewrite E2, (drop_S _ _ _ Hl), fmap_cons, <- app_assoc. done.
Qed.

Lemma indexOf_None (a : list fn) (l : fn) : l ∉ a → indexOf a l = None.
Proof.
  induction a as [|x a IH]; [done|]. intros Hn. simpl.
  destruct (decide (x = l)) as [->|]; [set_solver|].
  rewrite IH; [done|set_solver].
Qed.

(** C9.  [raise] calls exactly the listeners that are registered when it
    starts, once each in registration order and with the arguments it was
    given, whatever [tap] and [untap] calls those listeners make on the
    signal meanwhile; for [tap] and [untap] copy the array before they
    change it, so no array that existed before the call is modified, [tap]
    registers at the end, and [untap] of an unregistered listener changes
    nothing. *)
Theorem raise_calls_registered_snapshot (s : State Arg) (args : Arg) :
  calls (raise body args s) = calls s ++ ((λ l, (l, args)) <$> current s) ∧
  (∀ l a, (a < length (arrays s))%nat →
          arrays (tap l s) !! a = arrays s !! a ∧
          arrays (untap l s) !! a = arrays s !! a) ∧
  (∀ l, current (tap l s) = current s ++ [l]) ∧
  (∀ l, l ∉ current s → untap l s = s).
Proof.
  split_and!.
  - unfold raise, current.
    destruct (arrays s !! listeners s) as [arr|] eqn:E; simpl.
    + rewrite (forEach_from_calls _ 0 _ _ _ arr); done.
    + by rewrite app_nil_r.
  - intros l a Ha. split.
    + apply (run_op_frame s (Tap l) a Ha).
    + apply (run_op_frame s (Untap l) a Ha).
  - intros l. unfold tap, push, current at 1; simpl.
    rewrite list_lookup_alter_eq, lookup_app_r by lia.
    by rewrite Nat.sub_diag.
  - intros l Hl. unfold untap. by rewrite indexOf_None.
Qed.

End SignalFacts.

(** An instance: listener 0 removes itself and registers listener 7,
    listener 1 removes listener 2, which is registered after it; all three
    registered listeners are still called, and listener 7 is not. *)
Lemma raise_calls_registered_snapshot_witness :
  let body := λ l : Signal.fn,
    match l with
    | 0%nat => [Signal.Untap 0%nat; Signal.Tap 7%nat]
    | 1%nat => [Signal.Untap 2%nat]
    | _ => []
    end in
  let s := Signal.tap 2%nat (Signal.tap 1%nat (Signal.tap 0%nat Signal.create)) in
  Signal.calls (Signal.raise body 5 s) = [(0%nat, 5); (1%nat, 5); (2%nat, 5)] ∧
  Signal.current (Signal.raise body 5 s) = [1%nat; 7%nat] ∧
  Signal.arrays (Signal.untap 1%nat s) !! 3%nat = Some [0%nat; 1%nat; 2%nat].
Proof.
  intros body s.
  pose proof (raise_calls_registered_snapshot body s 5) as (H1 & H2 & _ & _).
  split; [exact H1|]. split; [reflexivity|].
  destruct (H2 1%nat 3%nat) as [_ H3]; [vm_compute; lia|].
  etrans; [exact H3|reflexivity].
Defined.

(** ** Indexing *)

Lemma rem_shift (n a : Z) : 0 < n → - n ≤ a → JS.rem (n + a) n = a mod n.
Proof.
  intros Hn Ha. unfold JS.rem.
  rewrite Z.rem_mod_nonneg by lia.
  replace (n + a) with (a + 1 * n) by lia. apply Z.mod_add. lia.
Qed.

(** Where [indexFor] is the index on the torus: from one full turn below the
    grid upwards. *)
Lemma indexFor_torus (m : Model) (x y : Z) :
  0 < cols m → 0 < rows m → - cols m ≤ x → - rows m ≤ y →
  indexFor m x y = Conway.torus_index (cols m) (rows m) x y ∧
  0 ≤ indexFor m x y < cols m * rows m.
Proof.
  intros Hc Hr Hx Hy. unfold indexFor, Conway.torus_index.
  rewrite !rem_shift by done.
  split; [done|].
  pose proof (Z.mod_pos_bound x (cols m) Hc).
  pose proof (Z.mod_pos_bound y (rows m) Hr). nia.
Qed.

(** C5, at the input where the code leaves it.  On a 3 by 3 board the column
    -4 is more than one turn to the left: [(3 + -4) % 3] is -1 in
    JavaScript, so [indexFor(-4, 0)] is -1, which is no index of the grid and
    differs from [indexFor(-4 + 3, 0)], which is 2. *)
Theorem indexFor_more_than_one_turn_below :
  indexFor (new_Model 3 3) (-4) 0 = -1 ∧
  indexFor (new_Model 3 3) (-4 + 3) 0 = 2 ∧
  size (new_Model 3 3) = 9.
Proof. by vm_compute. Qed.

(** ** Point queries *)

Lemma read_outside (g : list Z) (i : Z) :
  i < 0 ∨ Z.of_nat (length g) ≤ i → JS.read g i = None.
Proof.
  intros H. unfold JS.read. destruct (Z.ltb_spec i 0); [done|].
  apply lookup_ge_None_2. lia.
Qed.

Lemma read_inside (g : list Z) (i : Z) :
  0 ≤ i < Z.of_nat (length g) → ∃ v, JS.read g i = Some v ∧ g !! Z.to_nat i = Some v.
Proof.
  intros H. unfold JS.read. destruct (Z.ltb_spec i 0); [lia|].
  destruct (lookup_lt_is_Some_2 g (Z.to_nat i)) as [v Hv]; [lia|]. eauto.
Qed.

(** C10.  Outside [0, size()) [get] answers [false]; and at any index it
    hands the engine back as it was. *)
Theorem get_outside_is_false (m : Model) (index : Z)
    (Hout : index < 0 ∨ size m ≤ index) :
  get m index = (false, m) ∧ ∀ j, (get m j).2 = m.
Proof.
  split; [|done]. unfold get. by rewrite read_outside.
Qed.

Lemma get_outside_is_false_witness :
  get (new_Model 2 2) 4 = (false, new_Model 2 2) ∧
  get (new_Model 2 2) (-1) = (false, new_Model 2 2).
Proof.
  split.
  - apply (get_outside_is_false (new_Model 2 2) 4). right. vm_compute. discriminate.
  - apply (get_outside_is_false (new_Model 2 2) (-1)). left. lia.
Defined.

(** ** The active region *)

Lemma mark_spec (i : Z) (st : gset Z * list Z) :
  marks_ok st →
  marks_ok (mark i st) ∧ ∀ j, j ∈ (mark i st).2 ↔ j = i ∨ j ∈ st.2.
Proof.
  destruct st as [inc act]. intros [Hnd Hin]. unfold mark; simpl in *.
  destruct (decide (i ∈ inc)) as [Hi|Hi]; simpl.
  - split; [done|]. intros j. split; [auto|]. intros [->|]; [by apply Hin|done].
  - split.
    + split; simpl.
      * apply NoDup_app. split_and!; [done| |apply NoDup_singleton].
        intros x Hx ->%list_elem_of_singleton. by apply Hi, Hin.
      * intros j. rewrite elem_of_union, elem_of_singleton, elem_of_app,
          list_elem_of_singleton, Hin. tauto.
    + intros j. rewrite elem_of_app, list_elem_of_singleton. tauto.
Qed.

Lemma mark_all_spec (l : list Z) (st : gset Z * list Z) :
  marks_ok st →
  marks_ok (fold_left (λ s j, mark j s) l st) ∧
  ∀ j, j ∈ (fold_left (λ s j, mark j s) l st).2 ↔ j ∈ l ∨ j ∈ st.2.
Proof.
  revert st. induction l as [|i l IH]; intros st Hst; simpl.
  - split; [done|]. intros j. rewrite elem_of_nil. tauto.
  - destruct (mark_spec i st Hst) as [H1 H2].
    destruct (IH _ H1) as [H3 H4]. split; [done|].
    intros j. rewrite H4, H2, elem_of_cons. tauto.
Qed.

Lemma mark_cell_spec (m : Model) (st : gset Z * list Z) (index : Z) :
  marks_ok st →
  marks_ok (mark_cell m st index) ∧
  ∀ j, j ∈ (mark_cell m st index).2 ↔
       j = index ∨ j ∈ neighborsOf m index ∨ j ∈ st.2.
Proof.
  intros Hst. unfold mark_cell.
  destruct (mark_spec index st Hst) as [H1 H2].
  destruct (mark_all_spec (neighborsOf m index) _ H1) as [H3 H4].
  split; [done|]. intros j. rewrite H4, H2. tauto.
Qed.

Lemma mark_cells_spec (m : Model) (l : list Z) (st : gset Z * list Z) :
  marks_ok st →
  marks_ok (fold_left (mark_cell m) l st) ∧
  ∀ j, j ∈ (fold_left (mark_cell m) l st).2 ↔
       (j ∈ l ∨ ∃ a, a ∈ l ∧ j ∈ neighborsOf m a) ∨ j ∈ st.2.
Proof.
  revert st. induction l as [|i l IH]; intros st Hst; simpl.
  - split; [done|]. intros j. split; [auto|].
    intros [[H|(a & H & _)]|H]; [by apply elem_of_nil in H..|done].
  - destruct (mark_cell_spec m st i Hst) as [H1 H2].
    destruct (IH _ H1) as [H3 H4]. split; [done|].
    intros j. rewrite H4, H2. setoid_rewrite elem_of_cons. split.
    + intros [[?|(a & ? & ?)]|[->|[?|?]]]; eauto 7.
    + intros [[[->|?]|(a & [->|?] & ?)]|?]; eauto 7.
Qed.

(** [activeCells] lists, without repetition, the live indices and the
    neighbours [neighborsOf] gives for them. *)
Lemma activeCells_spec (m : Model) :
  NoDup (activeCells m) ∧
  ∀ j, j ∈ activeCells m ↔
       j ∈ alive m ∨ ∃ a, a ∈ alive m ∧ j ∈ neighborsOf m a.
Proof.
  unfold activeCells.
  destruct (mark_cells_spec m (alive m) (∅, [])) as [[H1 _] H2].
  { split; [constructor|]. intros i. simpl. set_solver. }
  split; [done|]. intros j. rewrite H2. simpl. rewrite elem_of_nil. tauto.
Qed.

(** ** The loops of [next] *)

Lemma filter_cons_test (P : Z → bool) (i : Z) (l : list Z) :
  filter (λ j, P j) (i :: l) =
  if P i then i :: filter (λ j, P j) l else filter (λ j, P j) l.
Proof.
  rewrite filter_cons. by destruct (P i).
Qed.

Lemma classify_all (m : Model) (l : list Z) (b : Buckets) :
  fold_left (classify m) l b =
  {| b_alive := b_alive b ++ filter (λ i, will_live m i) l;
     b_born := b_born b ++ filter (λ i, will_change m i && will_live m i) l;
     b_died := b_died b ++ filter (λ i, will_change m i && negb (will_live m i)) l;
     b_survived :=
       b_survived b ++ filter (λ i, negb (will_change m i) && will_live m i) l |}.
Proof.
  revert b. induction l as [|i l IH]; intros b.
  - simpl. rewrite !filter_nil, !app_nil_r. by destruct b.
  - cbn [fold_left]. rewrite IH.
    rewrite (filter_cons_test (will_live m)),
      (filter_cons_test (λ j, will_change m j && will_live m j)),
      (filter_cons_test (λ j, will_change m j && negb (will_live m j))),
      (filter_cons_test (λ j, negb (will_change m j) && will_live m j)).
    unfold classify.
    fold (will_live m i). fold (will_change m i).
    destruct (will_live m i), (will_change m i); cbn [andb negb b_alive b_born
      b_died b_survived]; by rewrite <- ?app_assoc.
Qed.

Lemma write_read (g : list Z) (j v i : Z) :
  JS.read (JS.write g j v) i =
  if decide (i = j) then (λ _, v) <$> JS.read g i else JS.read g i.
Proof.
  unfold JS.read, JS.write.
  destruct (Z.ltb_spec j 0), (Z.ltb_spec i 0); case_decide; subst; try done;
    try lia.
  - destruct (decide (Z.to_nat j < length g)%nat).
    + rewrite list_lookup_insert_eq by done.
      destruct (lookup_lt_is_Some_2 g (Z.to_nat j)) as [w Hw]; [done|].
      by rewrite Hw.
    + rewrite list_insert_ge by lia.
      by rewrite lookup_ge_None_2 by lia.
  - apply list_lookup_insert_ne. lia.
Qed.

Lemma write_length (g : list Z) (j v : Z) :
  length (JS.write g j v) = length g.
Proof. unfold JS.write. case_match; [done|apply length_insert]. Qed.

Lemma commit_length (ixs : list Z) (g : list Z) (v : Z) :
  length (commit g ixs v) = length g.
Proof.
  revert g. induction ixs as [|j ixs IH]; intros g; [done|].
  unfold commit in *; simpl. by rewrite IH, write_length.
Qed.

Lemma commit_read (ixs : list Z) (g : list Z) (v i : Z) :
  JS.read (commit g ixs v) i =
  if decide (i ∈ ixs) then (λ _, v) <$> JS.read g i else JS.read g i.
Proof.
  revert g. induction ixs as [|j ixs IH]; intros g.
  - simpl. destruct (decide (i ∈ [])) as [H|H]; [by apply elem_of_nil in H|done].
  - unfold commit in *; simpl. rewrite IH, write_read.
    destruct (decide (i ∈ j :: ixs)) as [Hc|Hc], (decide (i ∈ ixs)) as [Hi|Hi],
      (decide (i = j)) as [->|Hne]; try done.
    + by destruct (JS.read g j).
    + by apply elem_of_cons in Hc as [?|?].
    + exfalso. apply Hc. by right.
    + exfalso. apply Hc. by right.
    + exfalso. apply Hc. by left.
Qed.

(** ** The engine's neighbourhood is the torus neighbourhood *)

Lemma to_int32_small (a : Z) : 0 ≤ a < 2 ^ 31 → JS.to_int32 a = a.
Proof. intros H. unfold JS.to_int32. rewrite Z.mod_small; lia. Qed.

Lemma cell_coords (c r i : Z) :
  0 < c → 0 < r → r ≤ 2 ^ 31 → 0 ≤ i < c * r →
  JS.rem i c = i mod c ∧ JS.div_int i c = i / c ∧
  0 ≤ i mod c < c ∧ 0 ≤ i / c < r.
Proof.
  intros Hc Hr H31 Hi.
  assert (0 ≤ i / c < r) as Hq.
  { split; [apply Z.div_pos; lia|apply Z.div_lt_upper_bound; lia]. }
  unfold JS.rem, JS.div_int.
  rewrite Z.rem_mod_nonneg, Z.quot_div_nonneg, to_int32_small by lia.
  split_and!; try done; try lia; apply Z.mod_pos_bound; lia.
Qed.

Lemma torus_index_range (c r x y : Z) :
  0 < c → 0 < r → 0 ≤ Conway.torus_index c r x y < c * r.
Proof.
  intros Hc Hr. unfold Conway.torus_index.
  pose proof (Z.mod_pos_bound x c Hc). pose proof (Z.mod_pos_bound y r Hr). nia.
Qed.

Lemma torus_index_coords (c r x y : Z) :
  0 < c → 0 < r →
  Conway.torus_index c r x y mod c = x mod c ∧
  Conway.torus_index c r x y / c = y mod r.
Proof.
  intros Hc Hr. unfold Conway.torus_index.
  pose proof (Z.mod_pos_bound x c Hc).
  split.
  - rewrite Z.add_comm, Z.mod_add by lia. apply Z.mod_mod. lia.
  - rewrite Z.add_comm, Z.div_add by lia. rewrite Z.div_small by lia. lia.
Qed.

Lemma torus_index_of_cell (c r i : Z) :
  0 < c → 0 < r → 0 ≤ i < c * r →
  Conway.torus_index c r (i mod c) (i / c) = i.
Proof.
  intros Hc Hr Hi. unfold Conway.torus_index.
  assert (0 ≤ i / c < r) as Hq.
  { split; [apply Z.div_pos; lia|apply Z.div_lt_upper_bound; lia]. }
  rewrite Z.mod_mod, (Z.mod_small (i / c)) by lia.
  pose proof (Z.div_mod i c). lia.
Qed.

(** Going to a neighbour and back by the opposite offset. *)
Lemma torus_there_and_back (c r i dx dy : Z) :
  0 < c → 0 < r → 0 ≤ i < c * r →
  let j := Conway.torus_index c r (i mod c + dx) (i / c + dy) in
  Conway.torus_index c r (j mod c + - dx) (j / c + - dy) = i.
Proof.
  intros Hc Hr Hi j.
  destruct (torus_index_coords c r (i mod c + dx) (i / c + dy) Hc Hr) as [E1 E2].
  fold j in E1, E2. rewrite E1, E2.
  etrans; [|by apply (torus_index_of_cell c r i)].
  unfold Conway.torus_index.
  rewrite !Zplus_mod_idemp_l.
  by replace (i mod c + dx + - dx) with (i mod c) by lia;
     replace (i / c + dy + - dy) with (i / c) by lia.
Qed.

Lemma neighbors_sym (c r i j : Z) :
  0 < c → 0 < r → 0 ≤ i < c * r →
  j ∈ Conway.neighbors c r i → i ∈ Conway.neighbors c r j.
Proof.
  intros Hc Hr Hi. unfold Conway.neighbors.
  intros ([dx dy] & -> & Hd)%list_elem_of_fmap.
  apply list_elem_of_fmap. exists (- dx, - dy). split.
  - symmetry. by apply torus_there_and_back.
  - unfold Conway.offsets in *.
    repeat (apply elem_of_cons in Hd as [[= -> ->]|Hd];
            [simpl; repeat first [apply list_elem_of_here
                                 |apply list_elem_of_further]|]).
    by apply elem_of_nil in Hd.
Qed.

Lemma neighbors_range (c r i j : Z) :
  0 < c → 0 < r → j ∈ Conway.neighbors c r i → 0 ≤ j < c * r.
Proof.
  intros Hc Hr ([dx dy] & -> & _)%list_elem_of_fmap.
  by apply torus_index_range.
Qed.

Lemma neighborsOf_torus (m : Model) (i : Z) :
  engine_ok m → 0 ≤ i < size m →
  neighborsOf m i = Conway.neighbors (cols m) (rows m) i.
Proof.
  intros [Hc Hr H31 Hs _ _] Hi. rewrite Hs in Hi.
  destruct (cell_coords _ _ i Hc Hr H31 Hi) as (E1 & E2 & Hx & Hy).
  unfold neighborsOf, Conway.neighbors, Conway.offsets. rewrite E1, E2. simpl.
  repeat f_equal;
    match goal with
    | |- indexFor m ?x ?y = _ =>
        replace x with (i mod cols m + (x - i mod cols m)) at 1 by lia;
        replace y with (i / cols m + (y - i / cols m)) at 1 by lia;
        let E := fresh in
        destruct (indexFor_torus m (i mod cols m + (x - i mod cols m))
                    (i / cols m + (y - i / cols m))) as [E _]; [lia..|];
        rewrite E; f_equal; lia
    end.
Qed.

(** ** [nextFor] is the rule *)

Lemma read_cell (g : list Z) (n : Z) :
  0 ≤ n < Z.of_nat (length g) → JS.read g n = Some (Conway.cell g n).
Proof.
  intros Hn. destruct (read_inside g n Hn) as (v & E1 & E2).
  unfold Conway.cell. by rewrite E1, E2.
Qed.

Lemma cell_binary (g : list Z) (n : Z) :
  Forall (λ v, v = 0 ∨ v = 1) g → Conway.cell g n = 0 ∨ Conway.cell g n = 1.
Proof.
  intros Hb. unfold Conway.cell.
  destruct (g !! Z.to_nat n) as [v|] eqn:E; simpl; [|by left].
  by apply (Forall_lookup_1 _ _ _ _ Hb E).
Qed.

Lemma rule_binary (s cur : Z) :
  cur = 0 ∨ cur = 1 → Conway.rule s cur = 0 ∨ Conway.rule s cur = 1.
Proof. intros H. unfold Conway.rule. repeat case_match; auto. Qed.

Lemma count_from (g : list Z) (ns : list Z) (a : Z) :
  Forall (λ n, 0 ≤ n < Z.of_nat (length g)) ns →
  fold_left (λ acc n, JS.add acc (JS.read g n)) ns (Some a) =
  Some (a + foldr Z.add 0 (Conway.cell g <$> ns)).
Proof.
  revert a. induction ns as [|n ns IH]; intros a Hns; simpl.
  - f_equal. lia.
  - apply Forall_cons in Hns as [Hn Hns].
    rewrite (read_cell g n Hn). unfold JS.add at 1.
    rewrite IH by done. by rewrite Z.add_assoc.
Qed.

Lemma neighbor_count_sum (g : list Z) (ns : list Z) :
  ns ≠ [] →
  Forall (λ n, 0 ≤ n < Z.of_nat (length g)) ns →
  neighbor_count g ns = Some (foldr Z.add 0 (Conway.cell g <$> ns)).
Proof.
  destruct ns as [|n ns]; [done|]. intros _ [Hn Hns]%Forall_cons.
  unfold neighbor_count. rewrite (read_cell g n Hn). by apply count_from.
Qed.

Lemma nextFor_rule (m : Model) (i : Z) :
  engine_ok m → 0 ≤ i < size m →
  nextFor m i =
    Some (Conway.rule (Conway.neighbor_sum (cols m) (rows m) (grid m) i)
                      (Conway.cell (grid m) i)).
Proof.
  intros Hok Hi. pose proof Hok as [Hc Hr H31 Hs Hb _].
  unfold nextFor. rewrite (neighborsOf_torus m i Hok Hi).
  rewrite neighbor_count_sum.
  - fold (Conway.neighbor_sum (cols m) (rows m) (grid m) i).
    unfold JS.eq_num, Conway.rule. rewrite (read_cell (grid m) i Hi).
    by repeat case_match.
  - done.
  - apply Forall_forall. intros n Hn. fold (size m). rewrite Hs.
    by apply (neighbors_range _ _ i).
Qed.

Lemma nextFor_binary (m : Model) (i : Z) :
  engine_ok m → 0 ≤ i < size m → nextFor m i = Some 0 ∨ nextFor m i = Some 1.
Proof.
  intros Hok Hi. rewrite (nextFor_rule m i Hok Hi).
  destruct (rule_binary (Conway.neighbor_sum (cols m) (rows m) (grid m) i)
              (Conway.cell (grid m) i)) as [->| ->]; auto.
  apply cell_binary, Hok.
Qed.

(** ** What [next] writes *)

Lemma next_buckets (m : Model) :
  born (next m).1 =
    filter (λ i, will_change m i && will_live m i) (activeCells m) ∧
  died (next m).1 =
    filter (λ i, will_change m i && negb (will_live m i)) (activeCells m) ∧
  survived (next m).1 =
    filter (λ i, negb (will_change m i) && will_live m i) (activeCells m) ∧
  alive (next m).2 = filter (λ i, will_live m i) (activeCells m) ∧
  grid (next m).2 =
    commit (commit (grid m) (born (next m).1) 1) (died (next m).1) 0 ∧
  raised (next m).2 = raised m ++ [(next m).1] ∧
  cols (next m).2 = cols m ∧ rows (next m).2 = rows m.
Proof. unfold next; simpl. rewrite classify_all. done. Qed.

(** A cell outside the active region is not written. *)
Lemma next_read_inactive (m : Model) (i : Z) :
  i ∉ activeCells m → JS.read (grid (next m).2) i = JS.read (grid m) i.
Proof.
  intros Hi. destruct (next_buckets m) as (Eb & Ed & _ & _ & Eg & _).
  rewrite Eg, !commit_read, Eb, Ed.
  rewrite !decide_False; [done| |];
    intros [_ ?]%list_elem_of_filter; done.
Qed.

(** A cell of the active region holds what [nextFor] computed for it. *)
Lemma next_read_active (m : Model) (i : Z) :
  engine_ok m → 0 ≤ i < size m → i ∈ activeCells m →
  JS.read (grid (next m).2) i = nextFor m i.
Proof.
  intros Hok Hi Hact. destruct (next_buckets m) as (Eb & Ed & _ & _ & Eg & _).
  rewrite Eg, !commit_read, Eb, Ed.
  pose proof (nextFor_binary m i Hok Hi) as Hn.
  pose proof (read_cell (grid m) i Hi) as Hr.
  destruct (will_change m i) eqn:Ech, (will_live m i) eqn:Elv.
  - rewrite decide_False, decide_True.
    + rewrite Hr; simpl. unfold will_live in Elv.
      destruct Hn as [Hn|Hn]; rewrite Hn in *; done.
    + apply list_elem_of_filter. by rewrite Ech, Elv.
    + intros [H _]%list_elem_of_filter. by rewrite Ech, Elv in H.
  - rewrite decide_True.
    + destruct (decide _) as [_|_]; rewrite Hr; simpl;
        unfold will_live in Elv; destruct Hn as [Hn|Hn]; rewrite Hn in *; done.
    + apply list_elem_of_filter. by rewrite Ech, Elv.
  - rewrite !decide_False.
    + unfold will_change, JS.neq in Ech. rewrite Hr in *.
      destruct Hn as [Hn|Hn]; rewrite Hn in *; f_equal;
        apply negb_false_iff in Ech; lia.
    + intros [H _]%list_elem_of_filter. by rewrite Ech, Elv in H.
    + intros [H _]%list_elem_of_filter. by rewrite Ech, Elv in H.
  - rewrite !decide_False.
    + unfold will_change, JS.neq in Ech. rewrite Hr in *.
      destruct Hn as [Hn|Hn]; rewrite Hn in *; f_equal;
        apply negb_false_iff in Ech; lia.
    + intros [H _]%list_elem_of_filter. by rewrite Ech, Elv in H.
    + intros [H _]%list_elem_of_filter. by rewrite Ech, Elv in H.
Qed.

(** ** The change set of one generation *)

Lemma active_in_range (m : Model) (i : Z) :
  engine_ok m → i ∈ activeCells m → 0 ≤ i < size m.
Proof.
  intros Hok. pose proof Hok as [Hc Hr _ Hs _ Hal].
  rewrite Forall_forall in Hal.
  intros [Hi|(a & Ha & Hi)]%activeCells_spec; [by apply Hal|].
  rewrite (neighborsOf_torus m a Hok (Hal a Ha)) in Hi.
  rewrite Hs. by apply (neighbors_range _ _ a).
Qed.

Lemma activeCells_region (m : Model) (i : Z) :
  engine_ok m →
  i ∈ activeCells m ↔ Conway.active_region (cols m) (rows m) (alive m) i.
Proof.
  intros Hok. pose proof (ok_alive m Hok) as Hal.
  rewrite Forall_forall in Hal.
  rewrite (proj2 (activeCells_spec m)). unfold Conway.active_region.
  split; (intros [Hi|(a & Ha & Hi)]; [by left|right]); exists a;
    (split; [done|]).
  - by rewrite <- (neighborsOf_torus m a Hok (Hal a Ha)).
  - by rewrite (neighborsOf_torus m a Hok (Hal a Ha)).
Qed.

(** C7.  In every configuration, a cell reported born or died by [next] is
    a live cell of the state the call started from or one of the eight
    neighbours [neighborsOf] gives for a live cell, and a cell that is neither
    reads the same after the call as before it.  In an engine state those
    cells are the active region: the Live-Set with the eight neighbours on
    the torus of each live cell. *)
Theorem changes_stay_in_active_region (m : Model) :
  (∀ i, i ∈ born (next m).1 ∨ i ∈ died (next m).1 →
        i ∈ alive m ∨ ∃ a, a ∈ alive m ∧ i ∈ neighborsOf m a) ∧
  (∀ i, ¬ (i ∈ alive m ∨ ∃ a, a ∈ alive m ∧ i ∈ neighborsOf m a) →
        JS.read (grid (next m).2) i = JS.read (grid m) i ∧
        get (next m).2 i = (fst (get m i), (next m).2)) ∧
  (engine_ok m →
   ∀ i, (i ∈ alive m ∨ ∃ a, a ∈ alive m ∧ i ∈ neighborsOf m a) ↔
        Conway.active_region (cols m) (rows m) (alive m) i).
Proof.
  destruct (next_buckets m) as (Eb & Ed & _).
  split_and!.
  - intros i Hi. apply activeCells_spec.
    rewrite Eb, Ed in Hi.
    by destruct Hi as [[_ ?]%list_elem_of_filter|[_ ?]%list_elem_of_filter].
  - intros i Hi. rewrite <- (proj2 (activeCells_spec m)) in Hi.
    unfold get. rewrite (next_read_inactive m i Hi). done.
  - intros Hok i. rewrite <- (proj2 (activeCells_spec m)).
    by apply activeCells_region.
Qed.

Lemma will_live_after (m : Model) (i : Z) :
  engine_ok m → i ∈ activeCells m → will_live m i = true ↔ alive_after m i.
Proof.
  intros Hok Hi. pose proof (active_in_range m i Hok Hi) as Hr.
  unfold alive_after, get, will_live. cbn [fst].
  by rewrite (next_read_active m i Hok Hr Hi).
Qed.

Lemma reported_iff (m : Model) (i : Z) :
  engine_ok m →
  i ∈ born (next m).1 ++ died (next m).1 ++ survived (next m).1 ↔
  Conway.active_region (cols m) (rows m) (alive m) i ∧
  (alive_after m i ∨ alive_before m i).
Proof.
  intros Hok. destruct (next_buckets m) as (Eb & Ed & Es & _).
  rewrite Eb, Ed, Es, !elem_of_app, !list_elem_of_filter.
  rewrite <- (activeCells_region m i Hok).
  split.
  - intros H.
    assert (i ∈ activeCells m) as Hact by tauto. split; [done|].
    rewrite <- (will_live_after m i Hok Hact).
    pose proof (active_in_range m i Hok Hact) as Hr.
    destruct (will_live m i) eqn:Elv; [by left|right].
    destruct (will_change m i) eqn:Ech; [|simpl in H; tauto].
    unfold alive_before, get. cbn [fst].
    unfold will_live in Elv. unfold will_change in Ech.
    rewrite (read_cell (grid m) i Hr) in *.
    destruct (nextFor_binary m i Hok Hr) as [Hn|Hn]; rewrite Hn in *; [|done].
    destruct (cell_binary (grid m) i (ok_binary m Hok)) as [Hc|Hc];
      rewrite Hc in *; done.
  - intros [Hact H].
    rewrite <- (will_live_after m i Hok Hact) in H.
    pose proof (active_in_range m i Hok Hact) as Hr.
    destruct (will_live m i) eqn:Elv, (will_change m i) eqn:Ech; simpl;
      try tauto.
    exfalso. destruct H as [H|H]; [done|].
    unfold alive_before, get in H. cbn [fst] in H.
    unfold will_live in Elv. unfold will_change in Ech.
    rewrite (read_cell (grid m) i Hr) in *.
    destruct (nextFor_binary m i Hok Hr) as [Hn|Hn]; rewrite Hn in *; [|done].
    simpl in *. apply negb_false_iff in Ech. apply Z.eqb_eq in Ech.
    rewrite Ech in H. done.
Qed.

(** C6, amended.  The three sequences of one change set are pairwise
    disjoint, and together they hold exactly the cells of the active region
    that are alive after the call or were alive before it. *)
Theorem reported_cells_partition (m : Model) (Hok : engine_ok m) :
  let ch := (next m).1 in
  (∀ i, ¬ (i ∈ born ch ∧ i ∈ died ch)) ∧
  (∀ i, ¬ (i ∈ born ch ∧ i ∈ survived ch)) ∧
  (∀ i, ¬ (i ∈ died ch ∧ i ∈ survived ch)) ∧
  ∀ i, i ∈ born ch ++ died ch ++ survived ch ↔
       Conway.active_region (cols m) (rows m) (alive m) i ∧
       (alive_after m i ∨ alive_before m i).
Proof.
  cbv zeta. destruct (next_buckets m) as (Eb & Ed & Es & _).
  split_and!; [| | |intros i; by apply reported_iff];
    intros i; rewrite ?Eb, ?Ed, ?Es, !list_elem_of_filter;
    destruct (will_live m i), (will_change m i); simpl; tauto.
Qed.

(** ** One generation *)

Lemma read_nat (g : list Z) (k : nat) : JS.read g (Z.of_nat k) = g !! k.
Proof.
  unfold JS.read. destruct (Z.ltb_spec (Z.of_nat k) 0); [lia|].
  by rewrite Nat2Z.id.
Qed.

Lemma read_Some_range (g : list Z) (i v : Z) :
  JS.read g i = Some v → 0 ≤ i < Z.of_nat (length g).
Proof.
  intros H. destruct (decide (0 ≤ i < Z.of_nat (length g))) as [|Hn]; [done|].
  rewrite read_outside in H by lia. done.
Qed.

Lemma elem_of_indices (g : list Z) (i : Z) :
  i ∈ indices g ↔ 0 ≤ i < Z.of_nat (length g).
Proof.
  unfold indices. rewrite list_elem_of_fmap. split.
  - intros (k & -> & Hk%elem_of_seq). lia.
  - intros Hi. exists (Z.to_nat i). split; [lia|]. apply elem_of_seq. lia.
Qed.

Lemma live_iff (m : Model) (i : Z) :
  live_ok m → i ∈ alive m ↔ JS.read (grid m) i = Some 1.
Proof.
  intros [H1 H2]. rewrite Forall_forall in H1. rewrite Forall_forall in H2.
  split; [apply H1|]. intros Hr. apply H2; [|done].
  apply elem_of_indices. by apply (read_Some_range _ _ 1).
Qed.

Lemma sum_of_zeros (l : list Z) : Forall (λ v, v = 0) l → foldr Z.add 0 l = 0.
Proof. induction 1 as [|v l -> _ IH]; simpl; [done|]. by rewrite IH. Qed.

(** Outside the active region a cell is dead and so are its neighbours. *)
Lemma inactive_is_quiet (m : Model) (i : Z) :
  engine_ok m → live_ok m → 0 ≤ i < size m → i ∉ activeCells m →
  Conway.cell (grid m) i = 0 ∧
  Conway.neighbor_sum (cols m) (rows m) (grid m) i = 0.
Proof.
  intros Hok Hlv Hi Hact. pose proof Hok as [Hc Hr _ Hs Hb _].
  assert (∀ n, 0 ≤ n < size m → Conway.cell (grid m) n = 1 → n ∈ alive m)
    as Hone.
  { intros n Hn E. apply (live_iff m n Hlv).
    by rewrite (read_cell (grid m) n Hn), E. }
  split.
  - destruct (cell_binary (grid m) i Hb) as [E|E]; [done|].
    exfalso. apply Hact, activeCells_spec. left. by apply Hone.
  - apply sum_of_zeros, Forall_fmap, Forall_forall. intros n Hn. simpl.
    destruct (cell_binary (grid m) n Hb) as [E|E]; [done|].
    exfalso. apply Hact, (activeCells_region m i Hok). right. exists n.
    assert (0 ≤ n < size m) as Hnr.
    { rewrite Hs. by apply (neighbors_range _ _ i). }
    split; [by apply Hone|].
    apply neighbors_sym; [done..| |done]. by rewrite <- Hs.
Qed.

Lemma next_size (m : Model) : size (next m).2 = size m.
Proof.
  destruct (next_buckets m) as (_ & _ & _ & _ & Eg & _).
  unfold size. by rewrite Eg, !commit_length.
Qed.

Lemma next_grid (m : Model) :
  engine_ok m → live_ok m →
  grid (next m).2 = Conway.step (cols m) (rows m) (grid m).
Proof.
  intros Hok Hlv. apply list_eq. intros k.
  unfold Conway.step. rewrite list_lookup_imap, <- !read_nat.
  destruct (decide (Z.of_nat k < size m)) as [Hk|Hk].
  - assert (0 ≤ Z.of_nat k < size m) as Hr by lia.
    rewrite (read_cell (grid m) _ Hr).
    destruct (decide (Z.of_nat k ∈ activeCells m)) as [Ha|Ha].
    + rewrite (next_read_active m _ Hok Hr Ha). by apply nextFor_rule.
    + rewrite (next_read_inactive m _ Ha), (read_cell (grid m) _ Hr).
      destruct (inactive_is_quiet m _ Hok Hlv Hr Ha) as [-> ->]. done.
  - rewrite !read_outside; [done|right; unfold size in Hk; lia|].
    right. fold (size (next m).2). rewrite next_size. lia.
Qed.

Lemma next_engine_ok (m : Model) : engine_ok m → engine_ok (next m).2.
Proof.
  intros Hok. pose proof Hok as [Hc Hr H31 Hs Hb Hal].
  destruct (next_buckets m) as (_ & _ & _ & Ea & _ & _ & Ec & Er).
  split; rewrite ?Ec, ?Er, ?next_size; try done.
  - apply Forall_lookup. intros k v Hk. rewrite <- read_nat in Hk.
    pose proof (read_Some_range _ _ _ Hk) as Hrg.
    fold (size (next m).2) in Hrg. rewrite next_size in Hrg.
    destruct (decide (Z.of_nat k ∈ activeCells m)) as [Ha|Ha].
    + rewrite (next_read_active m _ Hok Hrg Ha) in Hk.
      destruct (nextFor_binary m _ Hok Hrg) as [E|E]; rewrite E in Hk;
        injection Hk as <-; auto.
    + rewrite (next_read_inactive m _ Ha), read_nat in Hk.
      by apply (Forall_lookup_1 _ _ _ _ Hb Hk).
  - rewrite Ea. apply Forall_forall.
    intros i [_ Hi]%list_elem_of_filter. by apply active_in_range.
Qed.

Lemma next_live_ok (m : Model) :
  engine_ok m → live_ok m → live_ok (next m).2.
Proof.
  intros Hok Hlv.
  destruct (next_buckets m) as (_ & _ & _ & Ea & _).
  split; rewrite Ea; apply Forall_forall.
  - intros i [Hl Hi]%list_elem_of_filter.
    pose proof (active_in_range m i Hok Hi) as Hr.
    rewrite (next_read_active m i Hok Hr Hi).
    unfold will_live in Hl.
    destruct (nextFor_binary m i Hok Hr) as [E|E]; rewrite E in *; done.
  - intros i Hi%elem_of_indices Hone.
    fold (size (next m).2) in Hi. rewrite next_size in Hi.
    destruct (decide (i ∈ activeCells m)) as [Ha|Ha].
    + apply list_elem_of_filter. split; [|done].
      rewrite (next_read_active m i Hok Hi Ha) in Hone.
      unfold will_live. by rewrite Hone.
    + rewrite (next_read_inactive m i Ha) in Hone.
      exfalso. apply Ha, activeCells_spec. left. by apply (live_iff m i Hlv).
Qed.

(** ** The blinker *)

Example horizontal_blinker_5_5 :
  Conway.horizontal_blinker 5 5 2 2 =
  [0; 0; 0; 0; 0;
   0; 0; 0; 0; 0;
   0; 1; 1; 1; 0;
   0; 0; 0; 0; 0;
   0; 0; 0; 0; 0].
Proof. reflexivity. Qed.

Example vertical_blinker_wraps :
  Conway.vertical_blinker 4 4 3 0 =
  [0; 0; 0; 1;
   0; 0; 0; 1;
   0; 0; 0; 0;
   0; 0; 0; 1].
Proof. reflexivity. Qed.

Lemma pattern_length (c r : Z) (P : Z → Z → bool) :
  Z.of_nat (length (Conway.pattern c r P)) = Z.max 0 (c * r).
Proof. unfold Conway.pattern. rewrite length_fmap, length_seq. lia. Qed.

Lemma pattern_lookup (c r : Z) (P : Z → Z → bool) (k : nat) :
  Z.of_nat k < c * r →
  Conway.pattern c r P !! k =
    Some (Z.b2z (P (Z.of_nat k mod c) (Z.of_nat k / c))).
Proof.
  intros Hk. unfold Conway.pattern.
  rewrite list_lookup_fmap, lookup_seq_lt by lia. done.
Qed.

Lemma pattern_cell (c r : Z) (P : Z → Z → bool) (a b : Z) :
  0 < c → 0 < r →
  Conway.cell (Conway.pattern c r P) (Conway.torus_index c r a b) =
  Z.b2z (P (a mod c) (b mod r)).
Proof.
  intros Hc Hr. pose proof (torus_index_range c r a b Hc Hr) as Hi.
  destruct (torus_index_coords c r a b Hc Hr) as [E1 E2].
  unfold Conway.cell. rewrite pattern_lookup by lia.
  rewrite Z2Nat.id by lia. simpl. by rewrite E1, E2.
Qed.

(** A generation of a pattern, cell by cell in coordinates. *)
Lemma step_pattern (c r : Z) (P Q : Z → Z → bool) :
  0 < c → 0 < r →
  (∀ x y, 0 ≤ x < c → 0 ≤ y < r →
     Conway.rule
       (foldr Z.add 0
          ((λ d, Z.b2z (P ((x + d.1) mod c) ((y + d.2) mod r))) <$>
             Conway.offsets))
       (Z.b2z (P x y)) = Z.b2z (Q x y)) →
  Conway.step c r (Conway.pattern c r P) = Conway.pattern c r Q.
Proof.
  intros Hc Hr Hrule. apply list_eq. intros k.
  unfold Conway.step. rewrite list_lookup_imap.
  destruct (decide (Z.of_nat k < c * r)) as [Hk|Hk].
  - rewrite !pattern_lookup by done. simpl. f_equal.
    assert (0 ≤ Z.of_nat k mod c < c) as Hx by (apply Z.mod_pos_bound; lia).
    assert (0 ≤ Z.of_nat k / c < r) as Hy.
    { split; [apply Z.div_pos; lia|apply Z.div_lt_upper_bound; lia]. }
    rewrite <- (Hrule _ _ Hx Hy). f_equal.
    unfold Conway.neighbor_sum, Conway.neighbors.
    rewrite <- list_fmap_compose. f_equal.
    apply list_fmap_ext. intros _ [dx dy] _. simpl.
    by apply pattern_cell.
  - rewrite !lookup_ge_None_2; [done| |];
      pose proof (pattern_length c r P); pose proof (pattern_length c r Q); lia.
Qed.

Lemma mod_piece (n a : Z) :
  0 < n → - n ≤ a < 2 * n →
  a mod n = if a <? 0 then a + n else if a <? n then a else a - n.
Proof.
  intros Hn Ha.
  destruct (Z.ltb_spec a 0); [|destruct (Z.ltb_spec a n)].
  - trans ((a + 1 * n) mod n); [by rewrite Z.mod_add by lia|].
    rewrite Z.mod_small; lia.
  - apply Z.mod_small. lia.
  - trans ((a + (-1) * n) mod n); [by rewrite Z.mod_add by lia|].
    rewrite Z.mod_small; lia.
Qed.

Lemma within_one_iff (n u d : Z) :
  4 ≤ n → 0 ≤ u < n → -1 ≤ d ≤ 1 →
  Conway.within_one n (u + d) = true ↔
  (u + d = -1 ∨ u + d = 0 ∨ u + d = 1 ∨
   u + d = n - 1 ∨ u + d = n ∨ u + d = n + 1).
Proof.
  intros Hn Hu Hd. unfold Conway.within_one.
  rewrite mod_piece by lia.
  rewrite !orb_true_iff, !Z.eqb_eq.
  destruct (Z.ltb_spec (u + d) 0); [|destruct (Z.ltb_spec (u + d) n)]; lia.
Qed.

Lemma wraps_to_zero_iff (n v d : Z) :
  4 ≤ n → 0 ≤ v < n → -1 ≤ d ≤ 1 →
  ((v + d) mod n =? 0) = true ↔ (v + d = 0 ∨ v + d = n).
Proof.
  intros Hn Hv Hd. rewrite mod_piece by lia. rewrite Z.eqb_eq.
  destruct (Z.ltb_spec (v + d) 0); [|destruct (Z.ltb_spec (v + d) n)]; lia.
Qed.

(** Case on a test [b] that [H] characterises: keep the characterisation
    or its negation. *)
Ltac flag b H :=
  let E := fresh "E" in
  destruct b eqn:E;
  [ apply proj1 in H; specialize (H eq_refl)
  | match type of H with
    | _ ↔ ?P =>
        let N := fresh "N" in
        assert (¬ P) as N by (intros N; apply H in N; discriminate N);
        clear H
    end ].

(** The tests on a coordinate [u] in [0, n) that the eight neighbours and the
    cell itself make, each as a condition on [u]. *)
Lemma tests_on_coordinate (n u : Z) :
  4 ≤ n → 0 ≤ u < n →
  (Conway.within_one n (u + -1) = true ↔ u = 0 ∨ u = 1 ∨ u = 2) ∧
  (Conway.within_one n u = true ↔ u = 0 ∨ u = 1 ∨ u = n - 1) ∧
  (Conway.within_one n (u + 1) = true ↔ u = 0 ∨ u = n - 2 ∨ u = n - 1) ∧
  (((u + -1) mod n =? 0) = true ↔ u = 1) ∧
  ((u =? 0) = true ↔ u = 0) ∧
  (((u + 1) mod n =? 0) = true ↔ u = n - 1).
Proof.
  intros Hn Hu. split_and!.
  - rewrite within_one_iff by lia. lia.
  - rewrite <- (Z.add_0_r u) at 1. rewrite within_one_iff by lia. lia.
  - rewrite within_one_iff by lia. lia.
  - rewrite wraps_to_zero_iff by lia. lia.
  - apply Z.eqb_eq.
  - rewrite wraps_to_zero_iff by lia. lia.
Qed.

(** The cases of a cell [u] columns and [v] rows away from the middle of a
    row of three on a torus of [c] columns and [r] rows. *)
Ltac blinker_cases c r u v Hc Hr Hu Hv :=
  destruct (tests_on_coordinate c u Hc Hu) as (B1 & B2 & B3 & _ & B5 & _);
  destruct (tests_on_coordinate r v Hr Hv) as (_ & A2 & _ & A4 & A5 & A6);
  unfold Conway.offsets; cbn [fmap list_fmap foldr fst snd];
  rewrite ?Z.add_0_r, ?(Z.mod_small v r) by lia;
  flag (Conway.within_one c (u + -1)) B1;
  flag (Conway.within_one c u) B2;
  flag (Conway.within_one c (u + 1)) B3;
  flag (u =? 0) B5;
  try (exfalso; lia);
  flag (Conway.within_one r v) A2;
  flag ((v + -1) mod r =? 0) A4;
  flag (v =? 0) A5;
  flag ((v + 1) mod r =? 0) A6;
  first [reflexivity | exfalso; lia].

(** A row of three, [u] columns and [v] rows away, becomes a column. *)
Lemma row_becomes_column (c r u v : Z) :
  4 ≤ c → 4 ≤ r → 0 ≤ u < c → 0 ≤ v < r →
  Conway.rule
    (foldr Z.add 0
       ((λ d, Z.b2z (((v + d.2) mod r =? 0) && Conway.within_one c (u + d.1)))
          <$> Conway.offsets))
    (Z.b2z ((v =? 0) && Conway.within_one c u)) =
  Z.b2z ((u =? 0) && Conway.within_one r v).
Proof. intros Hc Hr Hu Hv. blinker_cases c r u v Hc Hr Hu Hv. Qed.

Lemma column_becomes_row (c r u v : Z) :
  4 ≤ c → 4 ≤ r → 0 ≤ u < c → 0 ≤ v < r →
  Conway.rule
    (foldr Z.add 0
       ((λ d, Z.b2z (((u + d.1) mod c =? 0) && Conway.within_one r (v + d.2)))
          <$> Conway.offsets))
    (Z.b2z ((u =? 0) && Conway.within_one r v)) =
  Z.b2z ((v =? 0) && Conway.within_one c u).
Proof. intros Hc Hr Hu Hv. blinker_cases r c v u Hr Hc Hv Hu. Qed.

Lemma within_one_mod (n a : Z) :
  Conway.within_one n (a mod n) = Conway.within_one n a.
Proof.
  unfold Conway.within_one.
  destruct (decide (n = 0)) as [->|Hn]; [by rewrite !Z.mod_0_r|].
  by rewrite Z.mod_mod.
Qed.

(** A coordinate seen from the middle of the blinker. *)
Lemma moved_is_middle (n a b d : Z) :
  0 < n → 0 ≤ b < n →
  ((a + d) mod n =? b) = (((a - b) mod n + d) mod n =? 0).
Proof.
  intros Hn Hb. rewrite Zplus_mod_idemp_l.
  replace (a - b + d) with (a + d - b) by lia.
  rewrite <- (Zminus_mod_idemp_l (a + d)).
  pose proof (Z.mod_pos_bound (a + d) n Hn) as Ht.
  rewrite (mod_piece n ((a + d) mod n - b)) by lia.
  destruct (Z.ltb_spec ((a + d) mod n - b) 0);
    [|destruct (Z.ltb_spec ((a + d) mod n - b) n)];
    destruct (Z.eqb_spec ((a + d) mod n) b); lia.
Qed.

Lemma here_is_middle (n a b : Z) :
  0 < n → 0 ≤ a < n → 0 ≤ b < n → (a =? b) = ((a - b) mod n =? 0).
Proof.
  intros Hn Ha Hb.
  pose proof (moved_is_middle n a b 0 Hn Hb) as E.
  rewrite !Z.add_0_r, Z.mod_mod, (Z.mod_small a n) in E by lia. done.
Qed.

Lemma moved_within_one (n a b d : Z) :
  0 < n →
  Conway.within_one n ((a + d) mod n - b) =
  Conway.within_one n ((a - b) mod n + d).
Proof.
  intros Hn.
  rewrite <- (within_one_mod n ((a + d) mod n - b)),
          <- (within_one_mod n ((a - b) mod n + d)).
  rewrite Zminus_mod_idemp_l, Zplus_mod_idemp_l.
  f_equal. f_equal. lia.
Qed.

(** On a torus of at least four columns and four rows a horizontal blinker
    becomes the vertical one about the same cell, and that one the
    horizontal one again. *)
Lemma blinker_turns (c r x y : Z) :
  4 ≤ c → 4 ≤ r → 0 ≤ x < c → 0 ≤ y < r →
  Conway.step c r (Conway.horizontal_blinker c r x y) =
    Conway.vertical_blinker c r x y ∧
  Conway.step c r (Conway.vertical_blinker c r x y) =
    Conway.horizontal_blinker c r x y.
Proof.
  intros Hc Hr Hx Hy.
  unfold Conway.horizontal_blinker, Conway.vertical_blinker.
  split; (apply step_pattern; [lia..|]); intros x' y' Hx' Hy';
    rewrite (here_is_middle r y' y), (here_is_middle c x' x) by lia;
    rewrite <- (within_one_mod c (x' - x)), <- (within_one_mod r (y' - y)).
  - etrans;
      [|apply (row_becomes_column c r ((x' - x) mod c) ((y' - y) mod r));
        try apply Z.mod_pos_bound; lia].
    f_equal. f_equal. apply list_fmap_ext. intros _ [dx dy] _. simpl.
    by rewrite moved_is_middle, moved_within_one by lia.
  - etrans;
      [|apply (column_becomes_row c r ((x' - x) mod c) ((y' - y) mod r));
        try apply Z.mod_pos_bound; lia].
    f_equal. f_equal. apply list_fmap_ext. intros _ [dx dy] _. simpl.
    by rewrite moved_is_middle, moved_within_one by lia.
Qed.

(** C1.  From a state whose Live-Set is the set of the indices holding 1,
    [next] leaves in the grid one generation of Conway's rule computed for
    every cell of the torus from the old grid: alive with a neighbour sum of
    3, unchanged with a sum of 2, dead otherwise.  The state it leaves is
    again such a state.  In particular, on a board of at least four columns
    and four rows, a horizontal blinker becomes the vertical one, and a second
    [next] restores the grid cell for cell. *)
Theorem next_is_one_conway_generation (m : Model)
    (Hok : engine_ok m) (Hlive : live_ok m) :
  grid (next m).2 = Conway.step (cols m) (rows m) (grid m) ∧
  engine_ok (next m).2 ∧ live_ok (next m).2 ∧
  ∀ x y, 4 ≤ cols m → 4 ≤ rows m → 0 ≤ x < cols m → 0 ≤ y < rows m →
    grid m = Conway.horizontal_blinker (cols m) (rows m) x y →
    grid (next m).2 = Conway.vertical_blinker (cols m) (rows m) x y ∧
    grid (next (next m).2).2 = grid m.
Proof.
  pose proof (next_engine_ok m Hok) as Hok'.
  pose proof (next_live_ok m Hok Hlive) as Hlive'.
  split_and!; [by apply next_grid|done..|].
  intros x y Hc Hr Hx Hy Hg.
  destruct (blinker_turns _ _ x y Hc Hr Hx Hy) as [E1 E2].
  destruct (next_buckets m) as (_ & _ & _ & _ & _ & _ & Ec & Er).
  assert (grid (next m).2 = Conway.vertical_blinker (cols m) (rows m) x y)
    as Hv by (by rewrite next_grid, Hg).
  split; [done|].
  by rewrite (next_grid _ Hok' Hlive'), Ec, Er, Hv, E2.
Qed.

(** ** Initialisation *)

Lemma init_loop_spec (vals : list Z) (start : Z) (g al : list Z) :
  0 ≤ start →
  let r := init_loop start vals (g, al) in
  length r.1 = length g ∧
  r.2 = al ++ odd_indices start vals ∧
  ∀ i, JS.read r.1 i =
       if decide (start ≤ i < start + Z.of_nat (length vals))
       then (λ _, JS.low_bit (default 0 (vals !! Z.to_nat (i - start))))
              <$> JS.read g i
       else JS.read g i.
Proof.
  revert start g al. induction vals as [|v vals IH]; intros start g al Hs.
  - simpl. split_and!; [done|by rewrite app_nil_r|].
    intros i. rewrite decide_False by lia. done.
  - cbn [init_loop odd_indices]. unfold init_step.
    set (lb := JS.low_bit v).
    destruct (0 <? lb) eqn:Epos;
      (edestruct (IH (start + 1) (JS.write g start lb)) as (L & A & R);
       [lia|]; cbv zeta in L, A, R |- *; split_and!;
       [by rewrite L, write_length
       |rewrite A; by rewrite <- ?app_assoc
       |]);
      intros i; rewrite R, write_read; cbn [length];
      destruct (decide (i = start)) as [->|Hne].
    + rewrite decide_False, decide_True by lia.
      by rewrite Z.sub_diag.
    + destruct (decide (start + 1 ≤ i < start + 1 + Z.of_nat (length vals)))
        as [Hi|Hi].
      * rewrite decide_True by lia.
        replace (Z.to_nat (i - start)) with (S (Z.to_nat (i - (start + 1))))
          by lia. done.
      * rewrite decide_False by lia. done.
    + rewrite decide_False, decide_True by lia.
      by rewrite Z.sub_diag.
    + destruct (decide (start + 1 ≤ i < start + 1 + Z.of_nat (length vals)))
        as [Hi|Hi].
      * rewrite decide_True by lia.
        replace (Z.to_nat (i - start)) with (S (Z.to_nat (i - (start + 1))))
          by lia. done.
      * rewrite decide_False by lia. done.
Qed.

Lemma low_bit_binary (v : Z) : JS.low_bit v = 0 ∨ JS.low_bit v = 1.
Proof.
  unfold JS.low_bit. change (Z.land v 1) with (Z.land v (Z.ones 1)).
  rewrite Z.land_ones by lia. change (2 ^ 1) with 2.
  pose proof (Z.mod_pos_bound v 2). lia.
Qed.

Lemma elem_of_odd_indices (vals : list Z) (start i : Z) :
  i ∈ odd_indices start vals ↔
  ∃ k v, i = start + Z.of_nat k ∧ vals !! k = Some v ∧ JS.low_bit v = 1.
Proof.
  revert start. induction vals as [|v vals IH]; intros start; simpl.
  - rewrite elem_of_nil. split; [done|]. by intros (k & w & _ & ? & _).
  - pose proof (low_bit_binary v) as Hb.
    assert (i ∈ odd_indices (start + 1) vals ↔
            ∃ k w, i = start + Z.of_nat (S k) ∧ vals !! k = Some w ∧
                   JS.low_bit w = 1) as IH'.
    { rewrite IH. split; intros (k & w & -> & ? & ?); exists k, w;
        (split; [lia|done]). }
    destruct (Z.ltb_spec 0 (JS.low_bit v)) as [Hp|Hp].
    + rewrite elem_of_cons, IH'. split.
      * intros [->|(k & w & -> & ? & ?)].
        -- exists 0%nat, v. split; [lia|]. split; [done|lia].
        -- by exists (S k), w.
      * intros ([|k] & w & -> & Hk & Hw).
        -- left. lia.
        -- right. by exists k, w.
    + rewrite IH'. split.
      * intros (k & w & -> & ? & ?). by exists (S k), w.
      * intros ([|k] & w & -> & Hk & Hw).
        -- simpl in Hk. injection Hk as ->. lia.
        -- by exists k, w.
Qed.

Lemma init_spec (m : Model) (vals : list Z) :
  let r := init m vals in
  length (grid r.2) = length (grid m) ∧
  (∀ i, JS.read (grid r.2) i =
        if decide (0 ≤ i < Z.of_nat (length vals))
        then (λ _, JS.low_bit (default 0 (vals !! Z.to_nat i)))
               <$> JS.read (grid m) i
        else JS.read (grid m) i) ∧
  alive r.2 = alive m ++ odd_indices 0 vals ∧
  r.1 = {| born := alive r.2; survived := []; died := [] |} ∧
  raised r.2 = raised m ++ [r.1] ∧
  cols r.2 = cols m ∧ rows r.2 = rows m.
Proof.
  cbv zeta. unfold init.
  destruct (init_loop_spec vals 0 (grid m) (alive m)) as (L & A & R); [lia|].
  cbv zeta in L, A, R.
  destruct (init_loop 0 vals (grid m, alive m)) as [g al]. simpl in *.
  split_and!; try done.
  intros i. rewrite R, Z.sub_0_r. done.
Qed.



(** With as many values as cells, [init] overwrites the whole grid on any
    engine; the Live-Set is only added to. *)
Lemma init_overwrites_grid (m : Model) (vals : list Z) :
  Z.of_nat (length vals) = size m →
  grid (init m vals).2 = JS.low_bit <$> vals ∧
  alive (init m vals).2 = alive m ++ odd_indices 0 vals ∧
  (init m vals).1 =
    {| born := alive m ++ odd_indices 0 vals; survived := []; died := [] |}.
Proof.
  intros Hlen.
  destruct (init_spec m vals) as (L & R & A & C & _).
  split; [|by rewrite C, A].
  apply list_eq. intros k. rewrite <- read_nat, R, list_lookup_fmap.
  unfold size in Hlen.
  destruct (decide (0 ≤ Z.of_nat k < Z.of_nat (length vals))) as [Hk|Hk].
  - rewrite Nat2Z.id.
    destruct (lookup_lt_is_Some_2 vals k) as [v Hv]; [lia|].
    destruct (read_inside (grid m) (Z.of_nat k)) as (w & Hw & _); [lia|].
    by rewrite Hv, Hw.
  - rewrite read_outside by lia. by rewrite lookup_ge_None_2 by lia.
Qed.

Lemma init_fresh (m : Model) (vals : list Z) :
  alive m = [] → Z.of_nat (length vals) = size m →
  init_resets m vals ∧ alive (init m vals).2 = odd_indices 0 vals.
Proof.
  intros Hfresh Hlen.
  destruct (init_spec m vals) as (L & R & A & C & Rs & _).
  rewrite Hfresh in A. simpl in A.
  destruct (init_overwrites_grid m vals Hlen) as (Hg & _).
  split; [|done]. unfold init_resets. split_and!; try done.
  split; rewrite A, Hg; apply Forall_forall.
  - intros i (k & v & -> & Hk & Hv)%elem_of_odd_indices.
    rewrite Z.add_0_l, read_nat, list_lookup_fmap, Hk. simpl. by rewrite Hv.
  - intros i Hi%elem_of_indices Hone.
    apply elem_of_odd_indices.
    replace i with (Z.of_nat (Z.to_nat i)) in Hone by lia.
    rewrite read_nat, list_lookup_fmap in Hone.
    destruct (vals !! Z.to_nat i) as [v|] eqn:Hv; [|done].
    exists (Z.to_nat i), v. split; [lia|]. split; [done|].
    simpl in Hone. by injection Hone.
Qed.

(** The states the worker's engine goes through satisfy both conditions:
    the state [initLife] leaves, and every state after it. *)
Lemma after_init_ok (c r : Z) (vals : list Z) :
  0 < c → 0 < r → r ≤ 2 ^ 31 → Z.of_nat (length vals) = c * r →
  engine_ok (init (new_Model c r) vals).2 ∧
  live_ok (init (new_Model c r) vals).2.
Proof.
  intros Hc Hr H31 Hlen.
  assert (size (new_Model c r) = c * r) as Hs.
  { unfold size, new_Model; simpl. rewrite length_replicate. nia. }
  destruct (init_fresh (new_Model c r) vals) as [(Hg & Hl & _) Ha];
    [done|by rewrite Hs|].
  destruct (init_spec (new_Model c r) vals) as (L & _ & _ & _ & _ & Ec & Er).
  split; [|done]. split; rewrite ?Ec, ?Er; try done.
  - unfold size in *. by rewrite L.
  - rewrite Hg. apply Forall_fmap, Forall_forall. intros v _.
    apply low_bit_binary.
  - rewrite Ha. apply Forall_forall.
    intros i (k & v & -> & Hk%lookup_lt_Some & _)%elem_of_odd_indices.
    unfold size in *. rewrite L. lia.
Qed.

Lemma after_generations_ok (n : nat) (m : Model) (acc : list Changes) :
  engine_ok m → live_ok m →
  engine_ok (Host.needSome_loop n m acc).2 ∧
  live_ok (Host.needSome_loop n m acc).2.
Proof.
  revert m acc. induction n as [|n IH]; intros m acc Hok Hlv;
    cbn [Host.needSome_loop]; [done|].
  pose proof (next_engine_ok m Hok). pose proof (next_live_ok m Hok Hlv).
  destruct (next m) as [c m']. by apply IH.
Qed.

(** C3.  A second [init] does not reset the Live-Set.  An engine of 5 by 5
    that has run one generation from a blinker and is then given 25 zeros
    ends with every cell of the grid 0, as the claim says, but with a
    Live-Set that still holds the three cells of the generation before,
    none of which holds 1, and with a change set that reports those three
    as born; [died] and [survived] are empty. *)
Theorem init_again_keeps_old_live_set :
  let m1 := (next (init (new_Model 5 5)
                     (Conway.horizontal_blinker 5 5 2 2)).2).2 in
  ¬ init_resets m1 (replicate 25 0) ∧
  alive m1 = [7; 12; 17] ∧
  grid (init m1 (replicate 25 0)).2 = replicate 25 0 ∧
  alive (init m1 (replicate 25 0)).2 = [7; 12; 17] ∧
  (init m1 (replicate 25 0)).1 =
    {| born := [7; 12; 17]; survived := []; died := [] |} ∧
  (get (init m1 (replicate 25 0)).2 7).1 = false.
Proof.
  intros m1. split; [|by vm_compute].
  intros (_ & [H _] & _).
  apply (Forall_lookup_1 _ _ 0%nat 7) in H; [|by vm_compute].
  by vm_compute in H.
Qed.

(** ** Instances on a 5 by 5 board *)

Lemma blinker_engine_ok :
  engine_ok (init (new_Model 5 5) (Conway.horizontal_blinker 5 5 2 2)).2.
Proof.
  split; try (by vm_compute); by apply (bool_decide_unpack _); vm_compute.
Qed.

Lemma next_is_one_conway_generation_witness :
  let m := (init (new_Model 5 5) (Conway.horizontal_blinker 5 5 2 2)).2 in
  grid (next m).2 = Conway.step (cols m) (rows m) (grid m) ∧
  grid (next m).2 = Conway.vertical_blinker (cols m) (rows m) 2 2 ∧
  grid (next (next m).2).2 = grid m.
Proof.
  intros m.
  assert (engine_ok m) as Hok by apply blinker_engine_ok.
  assert (live_ok m) as Hlive by (by apply (bool_decide_unpack _); vm_compute).
  destruct (next_is_one_conway_generation m Hok Hlive) as (H1 & _ & _ & H2).
  split; [exact H1|].
  assert (cols m = 5) as Ec by (by vm_compute).
  assert (rows m = 5) as Er by (by vm_compute).
  assert (grid m = Conway.horizontal_blinker (cols m) (rows m) 2 2) as Hg
    by (by vm_compute).
  apply (H2 2 2); [lia..|exact Hg].
Defined.

Lemma changes_stay_in_active_region_witness :
  let m := (init (new_Model 5 5) (Conway.horizontal_blinker 5 5 2 2)).2 in
  born (next m).1 = [7; 17] ∧
  Conway.active_region (cols m) (rows m) (alive m) 7 ∧
  JS.read (grid (next m).2) 0 = JS.read (grid m) 0.
Proof.
  intros m.
  destruct (changes_stay_in_active_region m) as (H1 & H2 & H3).
  split; [by vm_compute|]. split.
  - apply (H3 blinker_engine_ok 7), (H1 7).
    left. by apply (bool_decide_unpack _); vm_compute.
  - apply (H2 0). rewrite <- (proj2 (activeCells_spec m)).
    by apply (bool_decide_unpack _); vm_compute.
Defined.

Lemma reported_cells_partition_witness :
  let m := (init (new_Model 5 5) (Conway.horizontal_blinker 5 5 2 2)).2 in
  died (next m).1 = [11; 13] ∧
  Conway.active_region (cols m) (rows m) (alive m) 11 ∧
  (alive_after m 11 ∨ alive_before m 11).
Proof.
  intros m. split; [by vm_compute|].
  destruct (reported_cells_partition m blinker_engine_ok) as (_ & _ & _ & H).
  apply (H 11). by apply (bool_decide_unpack _); vm_compute.
Defined.

(** C6 as stated fails: a lone live cell dies, so it is reported, in [died],
    although it is not alive afterwards. *)
Lemma lone_cell_is_reported_dead :
  let m := (init (new_Model 4 4)
              [0; 0; 0; 0;  0; 1; 0; 0;  0; 0; 0; 0;  0; 0; 0; 0]).2 in
  died (next m).1 = [5] ∧
  ¬ alive_after m 5 ∧
  ¬ reports_alive_after_only m.
Proof.
  intros m. split; [by vm_compute|]. split; [by vm_compute|].
  intros (_ & _ & _ & H). destruct (H 5) as [H5 _].
  destruct H5 as [_ [Ha|[_ Ha]]]; [|by vm_compute in Ha..].
  by apply (bool_decide_unpack _); vm_compute.
Qed.

(** ** The worker's batches *)

Lemma needSome_loop_acc (k : nat) (m : Model) (acc : list Changes) :
  Host.needSome_loop k m acc =
  (acc ++ (Host.needSome_loop k m []).1, (Host.needSome_loop k m []).2).
Proof.
  revert m acc. induction k as [|k IH]; intros m acc;
    cbn [Host.needSome_loop].
  - by rewrite app_nil_r.
  - destruct (next m) as [c m']. rewrite (IH m' (acc ++ [c])), (IH m' ([] ++ [c])).
    cbn [fst snd]. by rewrite <- app_assoc.
Qed.

Lemma needSome_loop_length (k : nat) (m : Model) :
  length (Host.needSome_loop k m []).1 = k.
Proof.
  revert m. induction k as [|k IH]; intros m; cbn [Host.needSome_loop];
    [done|].
  destruct (next m) as [c m'] eqn:E. rewrite needSome_loop_acc.
  cbn [fst snd app length]. by rewrite IH.
Qed.

Lemma needSome_batch (w : Host.Worker) (m : Model) (n : nat) :
  Host.model w = Some m →
  Host.onmessage w (NeedSome (Z.of_nat n)) =
  Some {| Host.model := Some (Host.needSome_loop n m []).2;
          Host.sent := Host.sent w ++ [HereSome (Host.needSome_loop n m []).1] |}.
Proof.
  intros Hm. unfold Host.onmessage, Host.needSome.
  rewrite Nat2Z.id, Hm. destruct n as [|n].
  - simpl. unfold Host.send. by rewrite Hm.
  - by destruct (Host.needSome_loop (S n) m []).
Qed.

Lemma first_changes_succ (n : nat) (m : Model) :
  first_changes (S n) m = (next m).1 :: first_changes n (advance m) ∧
  generation (S n) m = generation n (advance m).
Proof.
  unfold first_changes, generation. split.
  - cbn [seq fmap list_fmap Nat.iter]. f_equal.
    rewrite <- fmap_S_seq, <- list_fmap_compose. apply list_fmap_ext.
    intros _ k _. unfold compose. cbv beta. by rewrite Nat.iter_succ_r.
  - apply Nat.iter_succ_r.
Qed.

(** The loop of [needSome] calls [next()] on the engine [k] times, each
    time on what the call before has left, and collects what the calls
    return. *)
Lemma needSome_loop_generations_in_order (k : nat) (m : Model)
    (acc : list Changes) :
  Host.needSome_loop k m acc = (acc ++ first_changes k m, generation k m).
Proof.
  revert m acc. induction k as [|k IH]; intros m acc.
  - cbn. by rewrite app_nil_r.
  - destruct (first_changes_succ k m) as [-> ->].
    cbn [Host.needSome_loop]. unfold advance.
    destruct (next m) as [c m']. rewrite IH. cbn [fst snd].
    by rewrite <- app_assoc.
Qed.

Lemma first_changes_lookup (n k : nat) (m : Model) :
  (k < n)%nat → first_changes n m !! k = Some (next (generation k m)).1.
Proof.
  intros Hk. unfold first_changes.
  by rewrite list_lookup_fmap, lookup_seq_lt.
Qed.

Lemma single_requests (n : nat) (w : Host.Worker) (m : Model) :
  Host.model w = Some m →
  handle_all w (replicate n (NeedSome 1)) =
    Some {| Host.model := Some (generation n m);
            Host.sent := Host.sent w ++
              ((λ c, HereSome [c]) <$> first_changes n m) |}.
Proof.
  revert w m. induction n as [|n IH]; intros w m Hm.
  - cbn. rewrite app_nil_r. destruct w. simpl in *. by rewrite Hm.
  - cbn [replicate handle_all].
    pose proof (needSome_batch w m 1 Hm) as E1.
    change (Z.of_nat 1) with 1 in E1. rewrite E1. cbn [mbind option_bind].
    rewrite (IH {| Host.model := Some (Host.needSome_loop 1 m []).2;
                   Host.sent := Host.sent w ++
                     [HereSome (Host.needSome_loop 1 m []).1] |}
                (Host.needSome_loop 1 m []).2 eq_refl).
    destruct (first_changes_succ n m) as [-> ->].
    cbn [Host.needSome_loop Host.model Host.sent]. unfold advance.
    destruct (next m) as [c m']. cbn [fst snd app fmap list_fmap].
    by rewrite <- app_assoc.
Qed.

(** C8.  For an initialised worker, one [NeedSome] of [n] is answered by one
    [HereSome] with exactly [n] change sets, which are those that [n]
    successive calls of [next()] return, in the order of the generations:
    the one at position [k] is what [next()] returns on the engine that
    [k] calls before it have left.  [n] requests of one each are answered
    by [n] messages carrying the same change sets, one by one in the same
    order, and both ways leave the engine that [n] calls of [next()] leave;
    so in particular for [n] = 5. *)
Theorem batch_equals_single_requests (w : Host.Worker) (m : Model) (n : nat)
    (Hm : Host.model w = Some m) :
  Host.onmessage w (NeedSome (Z.of_nat n)) =
    Some {| Host.model := Some (generation n m);
            Host.sent := Host.sent w ++ [HereSome (first_changes n m)] |} ∧
  handle_all w (replicate n (NeedSome 1)) =
    Some {| Host.model := Some (generation n m);
            Host.sent := Host.sent w ++
              ((λ c, HereSome [c]) <$> first_changes n m) |} ∧
  length (first_changes n m) = n ∧
  (∀ k, (k < n)%nat →
        first_changes n m !! k = Some (next (generation k m)).1) ∧
  generation 0 m = m ∧
  ∀ k, generation (S k) m = (next (generation k m)).2.
Proof.
  split_and!.
  - rewrite (needSome_batch w m n Hm).
    by rewrite needSome_loop_generations_in_order.
  - by apply single_requests.
  - unfold first_changes. by rewrite length_fmap, length_seq.
  - intros k. apply first_changes_lookup.
  - done.
  - done.
Qed.

Lemma batch_equals_single_requests_witness :
  let m := (init (new_Model 5 5) (Conway.horizontal_blinker 5 5 2 2)).2 in
  let w := {| Host.model := Some m; Host.sent := [] |} in
  let a := {| born := [7; 17]; survived := [12]; died := [11; 13] |} in
  let b := {| born := [11; 13]; survived := [12]; died := [7; 17] |} in
  Host.onmessage w (NeedSome 5) =
    Some {| Host.model := Some (generation 5 m);
            Host.sent := [HereSome [a; b; a; b; a]] |} ∧
  handle_all w [NeedSome 1; NeedSome 1; NeedSome 1; NeedSome 1; NeedSome 1] =
    Some {| Host.model := Some (generation 5 m);
            Host.sent := [HereSome [a]; HereSome [b]; HereSome [a];
                          HereSome [b]; HereSome [a]] |} ∧
  grid (generation 5 m) = Conway.vertical_blinker 5 5 2 2.
Proof.
  intros m w a b.
  destruct (batch_equals_single_requests w m 5 eq_refl) as (H1 & H2 & _).
  assert (first_changes 5 m = [a; b; a; b; a]) as E by (by vm_compute).
  rewrite E in H1, H2.
  split; [exact H1|]. split; [exact H2|]. by vm_compute.
Defined.

(** ** The proxy and stale responses *)

Lemma receive_all (cs : list Changes) (p : Proxy.ModelInWorker) :
  let k := Z.to_nat (Proxy.pendingRequests p) in
  let q := fold_left Proxy.receive cs p in
  Proxy.notified q = Proxy.notified p ++ take k cs ∧
  Proxy.changes q = Proxy.changes p ++ drop k cs ∧
  Proxy.posted q = Proxy.posted p ∧
  Proxy.lastChange q = Proxy.lastChange p.
Proof.
  revert p. induction cs as [|c cs IH]; intros p; cbv zeta.
  - simpl. by rewrite take_nil, drop_nil, !app_nil_r.
  - cbn [fold_left].
    destruct (IH (Proxy.receive p c)) as (E1 & E2 & E3 & E4).
    cbv zeta in E1, E2. rewrite E1, E2, E3, E4. unfold Proxy.receive.
    destruct (Z.ltb_spec 0 (Proxy.pendingRequests p)) as [Hp|Hp]; simpl.
    + replace (Z.to_nat (Proxy.pendingRequests p))
        with (S (Z.to_nat (Proxy.pendingRequests p - 1))) by lia.
      simpl. by rewrite <- app_assoc.
    + replace (Z.to_nat (Proxy.pendingRequests p)) with 0%nat by lia.
      simpl. by rewrite <- app_assoc.
Qed.

(** C2.  A response computed for the configuration from before a
    [randomize] is not dropped.  The worker has answered the first
    [InitLife] and [NeedSome] of a 2 by 2 board when the consumer calls
    [randomize]; the two answers are still on their way.  The first of them
    answers a request from before the reset, and when it arrives its change
    set, the cell born from the old configuration, is appended to the queue
    behind the wipe; two pulls later it has reached the listeners. *)
Theorem stale_response_is_buffered :
  ¬ System.stale_responses_dropped ∧
  ∃ s s',
    System.run [System.Work; System.Work; System.Randomize [0; 0; 0; 1]]
      (System.boot 2 2 [1; 0; 0; 0]) = Some s ∧
    System.epoch s = 1%nat ∧
    head (System.responses s) =
      Some (0%nat, HereSome [ {| born := [0]; survived := []; died := [] |} ]) ∧
    System.run [System.Deliver; System.Pull; System.Pull] s = Some s' ∧
    Proxy.notified (System.proxy s') =
      [ {| born := []; survived := []; died := [] |};
        {| born := [0]; survived := []; died := [] |} ].
Proof.
  split.
  - intros H.
    edestruct (H 2 2 [1; 0; 0; 0]
                 [System.Work; System.Work; System.Randomize [0; 0; 0; 1]])
      as [Hc _]; [by vm_compute|by vm_compute|vm_compute; lia|].
    by vm_compute in Hc.
  - eexists _, _. split_and!; by vm_compute.
Qed.

(** * Further properties of the engine *)

(** ** Coordinates and indices *)




(** X2.  The column and row that [neighborsOf] computes for an index of the
    grid give the index back through [indexFor], and [indexFor] of a column
    and a row of the board has that column and that row: indices and
    coordinates of the board correspond one to one. *)
Theorem index_and_coordinates_round_trip (m : Model) (i x y : Z)
    (Hc : 0 < cols m) (Hr : 0 < rows m) (H31 : rows m ≤ 2 ^ 31)
    (Hi : 0 ≤ i < cols m * rows m)
    (Hx : 0 ≤ x < cols m) (Hy : 0 ≤ y < rows m) :
  indexFor m (JS.rem i (cols m)) (JS.div_int i (cols m)) = i ∧
  JS.rem (indexFor m x y) (cols m) = x ∧
  JS.div_int (indexFor m x y) (cols m) = y.
Proof.
  destruct (cell_coords _ _ i Hc Hr H31 Hi) as (E1 & E2 & Hx' & Hy').
  split.
  - rewrite E1, E2.
    destruct (indexFor_torus m (i mod cols m) (i / cols m)) as [E _];
      [lia..|].
    rewrite E. by apply torus_index_of_cell.
  - destruct (indexFor_torus m x y) as [E Hrg]; [lia..|].
    destruct (cell_coords _ _ (indexFor m x y) Hc Hr H31 Hrg) as (F1 & F2 & _).
    rewrite F1, F2, E.
    destruct (torus_index_coords (cols m) (rows m) x y Hc Hr) as [G1 G2].
    rewrite G1, G2, !Z.mod_small by lia. done.
Qed.

Lemma index_and_coordinates_round_trip_witness :
  indexFor (new_Model 3 4) (JS.rem 7 3) (JS.div_int 7 3) = 7 ∧
  JS.rem (indexFor (new_Model 3 4) 2 3) 3 = 2 ∧
  JS.div_int (indexFor (new_Model 3 4) 2 3) 3 = 3.
Proof.
  apply (index_and_coordinates_round_trip (new_Model 3 4) 7 2 3);
    simpl; lia.
Defined.

(** ** A new board *)

(** X3.  A board made by the constructor has [cols * rows] cells, all of
    them dead, and an empty Live-Set. *)
Theorem new_board_is_dead (c r i : Z) (Hc : 0 ≤ c) (Hr : 0 ≤ r) :
  size (new_Model c r) = c * r ∧
  get (new_Model c r) i = (false, new_Model c r) ∧
  alive (new_Model c r) = [].
Proof.
  split_and!; [|unfold get|done].
  - unfold size, new_Model; simpl. rewrite length_replicate. nia.
  - f_equal. unfold new_Model; simpl. unfold JS.read.
    destruct (i <? 0); [done|].
    destruct (replicate (Z.to_nat (c * r)) 0 !! Z.to_nat i) as [v|] eqn:E;
      [|done].
    apply lookup_replicate in E as [-> _]. done.
Qed.

Lemma new_board_is_dead_witness :
  size (new_Model 3 4) = 3 * 4 ∧
  get (new_Model 3 4) 5 = (false, new_Model 3 4) ∧
  alive (new_Model 3 4) = [].
Proof. apply (new_board_is_dead 3 4 5); lia. Defined.

(** X4.  With an empty Live-Set [next] has nothing to recompute: it returns
    and raises a change set of three empty sequences and leaves grid and
    Live-Set as they were; so it does on a board that [init] was never called
    on. *)
Theorem next_on_empty_live_set (m : Model) (Hempty : alive m = []) :
  next m =
  ({| born := []; survived := []; died := [] |},
   {| grid := grid m; alive := []; rows := rows m; cols := cols m;
      raised := raised m ++ [ {| born := []; survived := []; died := [] |} ] |}).
Proof. unfold next, activeCells. rewrite Hempty. reflexivity. Qed.

Lemma next_on_empty_live_set_witness :
  next (new_Model 3 3) =
  ({| born := []; survived := []; died := [] |},
   {| grid := grid (new_Model 3 3); alive := []; rows := 3; cols := 3;
      raised := [ {| born := []; survived := []; died := [] |} ] |}).
Proof. apply (next_on_empty_live_set (new_Model 3 3)). reflexivity. Defined.

(** ** Reading back what [init] stored *)

Lemma low_bit_odd (v : Z) : (0 <? JS.low_bit v) = Z.odd v.
Proof.
  unfold JS.low_bit. change (Z.land v 1) with (Z.land v (Z.ones 1)).
  rewrite Z.land_ones by lia. change (2 ^ 1) with 2.
  rewrite Zmod_odd. by destruct (Z.odd v).
Qed.

(** X5.  After [init], [get] at an index of the grid that the values reach
    tells whether the value given for it is odd, negative values included; at
    an index the values do not reach it answers as it did before. *)
Theorem get_reads_back_init (m : Model) (vals : list Z) (i : Z)
    (Hi : 0 ≤ i < size m) :
  (get (init m vals).2 i).1 =
  match vals !! Z.to_nat i with
  | Some v => Z.odd v
  | None => (get m i).1
  end.
Proof.
  destruct (init_spec m vals) as (_ & R & _).
  unfold get. cbn [fst]. rewrite R.
  destruct (read_inside (grid m) i Hi) as (w & Hw & _). rewrite Hw.
  destruct (vals !! Z.to_nat i) as [v|] eqn:E.
  - rewrite decide_True by (apply lookup_lt_Some in E; lia).
    simpl. apply low_bit_odd.
  - rewrite decide_False by (apply lookup_ge_None in E; lia). done.
Qed.

Lemma get_reads_back_init_witness :
  (get (init (new_Model 2 2) [-3; 2]).2 0).1 = Z.odd (-3) ∧
  (get (init (new_Model 2 2) [-3; 2]).2 3).1 = (get (new_Model 2 2) 3).1.
Proof.
  split.
  - apply (get_reads_back_init (new_Model 2 2) [-3; 2] 0). by vm_compute.
  - apply (get_reads_back_init (new_Model 2 2) [-3; 2] 3). by vm_compute.
Defined.

(** ** Neighbourhoods *)

(** X6.  In an engine state [neighborsOf] gives, for an index of the grid,
    eight indices of the grid, and being a neighbour is mutual. *)
Theorem neighborsOf_in_range_and_mutual (m : Model) (i j : Z)
    (Hok : engine_ok m) (Hi : 0 ≤ i < size m) (Hj : 0 ≤ j < size m) :
  length (neighborsOf m i) = 8%nat ∧
  Forall (λ n, 0 ≤ n < size m) (neighborsOf m i) ∧
  (j ∈ neighborsOf m i ↔ i ∈ neighborsOf m j).
Proof.
  pose proof Hok as [Hc Hr _ Hs _ _].
  split; [done|]. split.
  - rewrite (neighborsOf_torus m i Hok Hi). apply Forall_forall.
    intros n Hn. rewrite Hs. by apply (neighbors_range _ _ i).
  - rewrite (neighborsOf_torus m i Hok Hi), (neighborsOf_torus m j Hok Hj).
    rewrite Hs in Hi, Hj. split; by apply neighbors_sym.
Qed.

Lemma neighborsOf_in_range_and_mutual_witness :
  let m := (init (new_Model 5 5) (Conway.horizontal_blinker 5 5 2 2)).2 in
  length (neighborsOf m 0) = 8%nat ∧
  Forall (λ n, 0 ≤ n < size m) (neighborsOf m 0) ∧
  (24 ∈ neighborsOf m 0 ↔ 0 ∈ neighborsOf m 24).
Proof.
  intros m.
  apply (neighborsOf_in_range_and_mutual m 0 24 blinker_engine_ok);
    by vm_compute.
Defined.

Lemma mod_eq_close (n a b : Z) :
  0 < n → a mod n = b mod n → - n < a - b < n → a = b.
Proof.
  intros Hn E Hd.
  assert ((a - b) mod n = 0) as H0.
  { rewrite Zminus_mod, E, Z.sub_diag. by apply Z.mod_0_l, Z.neq_sym, Z.lt_neq. }
  apply Z.mod_divide in H0 as [k Hk]; [|lia].
  destruct (decide (k ≤ -1)); [nia|]. destruct (decide (1 ≤ k)); [nia|].
  assert (k = 0) as -> by lia. lia.
Qed.

Lemma offsets_and_centre :
  NoDup ((0, 0) :: Conway.offsets) ∧
  ∀ d, d ∈ (0, 0) :: Conway.offsets → -1 ≤ d.1 ≤ 1 ∧ -1 ≤ d.2 ≤ 1.
Proof.
  split.
  - by apply (bool_decide_unpack _); vm_compute.
  - intros d Hd. unfold Conway.offsets in Hd.
    repeat (apply elem_of_cons in Hd as [->|Hd]; [simpl; lia|]).
    by apply elem_of_nil in Hd.
Qed.

(** X7.  On a board of at least three columns and three rows the eight
    neighbours of a cell are eight different cells, none of them the cell
    itself. *)
Theorem neighborsOf_distinct (m : Model) (i : Z)
    (Hok : engine_ok m) (Hi : 0 ≤ i < size m)
    (H3c : 3 ≤ cols m) (H3r : 3 ≤ rows m) :
  NoDup (neighborsOf m i) ∧ i ∉ neighborsOf m i.
Proof.
  pose proof Hok as [Hc Hr _ Hs _ _].
  rewrite (neighborsOf_torus m i Hok Hi). rewrite Hs in Hi.
  destruct offsets_and_centre as [Hnd Hb].
  set (f := λ d : Z * Z,
         Conway.torus_index (cols m) (rows m)
           (i mod cols m + d.1) (i / cols m + d.2)).
  assert (NoDup (f <$> (0, 0) :: Conway.offsets)) as Hall.
  { apply NoDup_fmap_2_strong; [|done].
    intros [dx dy] [ex ey] Hd He Hf. unfold f in Hf. simpl in Hf.
    destruct (torus_index_coords (cols m) (rows m)
                (i mod cols m + dx) (i / cols m + dy) Hc Hr) as [A1 A2].
    destruct (torus_index_coords (cols m) (rows m)
                (i mod cols m + ex) (i / cols m + ey) Hc Hr) as [B1 B2].
    rewrite Hf in A1, A2.
    destruct (Hb _ Hd) as [? ?]. destruct (Hb _ He) as [? ?]. simpl in *.
    assert (i mod cols m + dx = i mod cols m + ex)
      by (apply (mod_eq_close (cols m)); [lia|congruence|lia]).
    assert (i / cols m + dy = i / cols m + ey)
      by (apply (mod_eq_close (rows m)); [lia|congruence|lia]).
    f_equal; lia. }
  rewrite fmap_cons in Hall. apply NoDup_cons in Hall as [Hself Hrest].
  split; [done|].
  unfold f in Hself at 1. simpl in Hself.
  by rewrite !Z.add_0_r, torus_index_of_cell in Hself.
Qed.

Lemma neighborsOf_distinct_witness :
  let m := (init (new_Model 5 5) (Conway.horizontal_blinker 5 5 2 2)).2 in
  NoDup (neighborsOf m 0) ∧ 0 ∉ neighborsOf m 0.
Proof.
  intros m.
  apply (neighborsOf_distinct m 0 blinker_engine_ok); by vm_compute.
Defined.

(** ** The active region and the buckets *)

Lemma mark_length (i : Z) (st : gset Z * list Z) :
  (length (mark i st).2 ≤ S (length st.2))%nat.
Proof.
  destruct st as [inc act]. unfold mark. case_decide; simpl; [lia|].
  rewrite length_app. simpl. lia.
Qed.

Lemma mark_all_length (l : list Z) (st : gset Z * list Z) :
  (length (fold_left (λ s j, mark j s) l st).2 ≤ length l + length st.2)%nat.
Proof.
  revert st. induction l as [|i l IH]; intros st; simpl; [lia|].
  pose proof (IH (mark i st)). pose proof (mark_length i st). lia.
Qed.

Lemma mark_cells_length (m : Model) (l : list Z) (st : gset Z * list Z) :
  (length (fold_left (mark_cell m) l st).2 ≤ 9 * length l + length st.2)%nat.
Proof.
  revert st. induction l as [|i l IH]; intros st; simpl; [lia|].
  pose proof (IH (mark_cell m st i)) as H1.
  assert (length (mark_cell m st i).2 ≤ 9 + length st.2)%nat as H2.
  { unfold mark_cell.
    pose proof (mark_all_length (neighborsOf m i) (mark i st)) as H3.
    pose proof (mark_length i st).
    change (length (neighborsOf m i)) with 8%nat in H3. lia. }
  lia.
Qed.

(** X8.  In every configuration [activeCells] lists each live index and each
    neighbour of a live index once and nothing else, so at most nine indices
    for each entry of the Live-Set. *)
Theorem activeCells_lists_each_once (m : Model) :
  NoDup (activeCells m) ∧
  (∀ j, j ∈ activeCells m ↔
        j ∈ alive m ∨ ∃ a, a ∈ alive m ∧ j ∈ neighborsOf m a) ∧
  (length (activeCells m) ≤ 9 * length (alive m))%nat.
Proof.
  destruct (activeCells_spec m) as [H1 H2]. split_and!; [done..|].
  unfold activeCells.
  pose proof (mark_cells_length m (alive m) (∅, [])) as H. simpl in H. lia.
Qed.

Lemma filter_none (P : Z → bool) (l : list Z) :
  (∀ i, i ∈ l → P i = false) → filter (λ i, P i) l = [].
Proof.
  intros H. destruct (filter (λ i, P i) l) as [|x l'] eqn:E; [done|].
  assert (x ∈ filter (λ i, P i) l) as Hx by (rewrite E; left).
  apply list_elem_of_filter in Hx as [Hp Hx]. rewrite (H x Hx) in Hp. done.
Qed.

(** What the two tests of [next] say about a cell of the active region, in
    terms of [get] before and after the call. *)
Lemma tests_before_after (m : Model) (i : Z) :
  engine_ok m → i ∈ activeCells m →
  will_live m i = (get (next m).2 i).1 ∧
  will_change m i = xorb (get m i).1 (get (next m).2 i).1.
Proof.
  intros Hok Hact. pose proof (active_in_range m i Hok Hact) as Hr.
  unfold get, will_live, will_change. cbn [fst].
  rewrite (next_read_active m i Hok Hr Hact), (read_cell (grid m) i Hr).
  destruct (cell_binary (grid m) i (ok_binary m Hok)) as [-> | ->];
    destruct (nextFor_binary m i Hok Hr) as [-> | ->]; done.
Qed.

Lemma inactive_before_after (m : Model) (i : Z) :
  engine_ok m → live_ok m → i ∉ activeCells m →
  (get m i).1 = false ∧ (get (next m).2 i).1 = false.
Proof.
  intros Hok Hlv Hact.
  assert (JS.read (grid m) i ≠ Some 1) as Hne.
  { intros H1. apply Hact, activeCells_spec. left. by apply (live_iff m i Hlv). }
  unfold get. cbn [fst]. rewrite (next_read_inactive m i Hact).
  assert (JS.gt0 (JS.read (grid m) i) = false) as ->; [|done].
  destruct (decide (0 ≤ i < size m)) as [Hr|Hr].
  - rewrite (read_cell (grid m) i Hr) in *.
    destruct (cell_binary (grid m) i (ok_binary m Hok)) as [E|E];
      rewrite E in *; done.
  - rewrite read_outside; [done|]. unfold size in Hr. lia.
Qed.

Lemma buckets_before_after (m : Model) (i : Z) :
  engine_ok m → live_ok m →
  (i ∈ born (next m).1 ↔ ¬ alive_before m i ∧ alive_after m i) ∧
  (i ∈ died (next m).1 ↔ alive_before m i ∧ ¬ alive_after m i) ∧
  (i ∈ survived (next m).1 ↔ alive_before m i ∧ alive_after m i).
Proof.
  intros Hok Hlive. destruct (next_buckets m) as (Eb & Ed & Es & _).
  rewrite Eb, Ed, Es, !list_elem_of_filter.
  unfold alive_before, alive_after.
  destruct (decide (i ∈ activeCells m)) as [Hact|Hact].
  - destruct (tests_before_after m i Hok Hact) as [-> ->].
    destruct (get m i).1, (get (next m).2 i).1; simpl;
      intuition congruence.
  - destruct (inactive_before_after m i Hok Hlive Hact) as [-> ->].
    intuition congruence.
Qed.

(** X9.  From a state whose Live-Set is the set of the indices holding 1,
    the three sequences of the change set say what happened to every cell of
    the board: [born] holds exactly the cells dead before the call and alive
    after it, [died] those alive before and dead after, [survived] those
    alive before and after. *)
Theorem buckets_tell_before_and_after (m : Model) (i : Z)
    (Hok : engine_ok m) (Hlive : live_ok m) :
  (i ∈ born (next m).1 ↔ ¬ alive_before m i ∧ alive_after m i) ∧
  (i ∈ died (next m).1 ↔ alive_before m i ∧ ¬ alive_after m i) ∧
  (i ∈ survived (next m).1 ↔ alive_before m i ∧ alive_after m i).
Proof. by apply buckets_before_after. Qed.

Lemma buckets_tell_before_and_after_witness :
  let m := (init (new_Model 5 5) (Conway.horizontal_blinker 5 5 2 2)).2 in
  (7 ∈ born (next m).1 ↔ ¬ alive_before m 7 ∧ alive_after m 7) ∧
  (7 ∈ died (next m).1 ↔ alive_before m 7 ∧ ¬ alive_after m 7) ∧
  (7 ∈ survived (next m).1 ↔ alive_before m 7 ∧ alive_after m 7).
Proof.
  intros m. apply (buckets_tell_before_and_after m 7 blinker_engine_ok).
  by apply (bool_decide_unpack _); vm_compute.
Defined.

(** X10.  In every configuration the Live-Set that [next] leaves has no
    index twice and holds exactly the indices reported born or survived. *)
Theorem live_set_after_next (m : Model) :
  NoDup (alive (next m).2) ∧
  ∀ i, i ∈ alive (next m).2 ↔
       i ∈ born (next m).1 ∨ i ∈ survived (next m).1.
Proof.
  destruct (next_buckets m) as (Eb & _ & Es & Ea & _).
  rewrite Ea, Eb, Es. split.
  - apply NoDup_filter, activeCells_spec.
  - intros i. rewrite !list_elem_of_filter.
    destruct (will_live m i), (will_change m i); simpl; tauto.
Qed.

Lemma grid_kept_iff (m : Model) :
  engine_ok m →
  born (next m).1 = [] ∧ died (next m).1 = [] ↔ grid (next m).2 = grid m.
Proof.
  intros Hok. destruct (next_buckets m) as (Eb & Ed & _ & _ & Eg & _).
  split.
  - intros [Hb Hd]. by rewrite Eg, Hb, Hd.
  - intros Hg.
    assert (∀ i, i ∈ activeCells m → will_change m i = false) as Hch.
    { intros i Hact. pose proof (active_in_range m i Hok Hact) as Hr.
      unfold will_change.
      rewrite <- (next_read_active m i Hok Hr Hact), Hg.
      rewrite (read_cell (grid m) i Hr). simpl. by rewrite Z.eqb_refl. }
    rewrite Eb, Ed. split; apply filter_none; intros i Hi;
      by rewrite (Hch i Hi).
Qed.

(** X11.  In an engine state [next] reports no birth and no death exactly
    when the grid after the call is the grid before it. *)
Theorem no_change_iff_grid_kept (m : Model) (Hok : engine_ok m) :
  born (next m).1 = [] ∧ died (next m).1 = [] ↔ grid (next m).2 = grid m.
Proof. by apply grid_kept_iff. Qed.

Lemma no_change_iff_grid_kept_witness :
  let m := (init (new_Model 4 4)
              [0; 0; 0; 0;  0; 1; 1; 0;  0; 1; 1; 0;  0; 0; 0; 0]).2 in
  born (next m).1 = [] ∧ died (next m).1 = [] ↔ grid (next m).2 = grid m.
Proof.
  intros m. apply (no_change_iff_grid_kept m).
  split; try (by vm_compute); by apply (bool_decide_unpack _); vm_compute.
Defined.

(** ** The block *)

Example block_4_4 :
  block 4 4 1 1 =
  [0; 0; 0; 0;
   0; 1; 1; 0;
   0; 1; 1; 0;
   0; 0; 0; 0].
Proof. reflexivity. Qed.

Lemma zero_or_one_mod (n a : Z) : zero_or_one n (a mod n) = zero_or_one n a.
Proof.
  unfold zero_or_one.
  destruct (decide (n = 0)) as [->|Hn]; [by rewrite !Z.mod_0_r|].
  by rewrite Z.mod_mod.
Qed.

Lemma moved_zero_or_one (n a b d : Z) :
  0 < n →
  zero_or_one n ((a + d) mod n - b) = zero_or_one n ((a - b) mod n + d).
Proof.
  intros Hn.
  rewrite <- (zero_or_one_mod n ((a + d) mod n - b)),
          <- (zero_or_one_mod n ((a - b) mod n + d)).
  rewrite Zminus_mod_idemp_l, Zplus_mod_idemp_l.
  f_equal. f_equal. lia.
Qed.

Lemma zero_or_one_tests (n u : Z) :
  3 ≤ n → 0 ≤ u < n →
  (zero_or_one n (u + -1) = true ↔ u = 1 ∨ u = 2) ∧
  (zero_or_one n (u + 0) = true ↔ u = 0 ∨ u = 1) ∧
  (zero_or_one n (u + 1) = true ↔ u = 0 ∨ u = n - 1).
Proof.
  intros Hn Hu. unfold zero_or_one.
  rewrite !(mod_piece n) by lia.
  rewrite !orb_true_iff, !Z.eqb_eq. split_and!.
  - destruct (Z.ltb_spec (u + -1) 0); [|destruct (Z.ltb_spec (u + -1) n)]; lia.
  - destruct (Z.ltb_spec (u + 0) 0); [|destruct (Z.ltb_spec (u + 0) n)]; lia.
  - destruct (Z.ltb_spec (u + 1) 0); [|destruct (Z.ltb_spec (u + 1) n)]; lia.
Qed.

(** A cell [u] columns and [v] rows away from the corner of a block keeps
    its state. *)
Lemma block_cell_stays (c r u v : Z) :
  3 ≤ c → 3 ≤ r → 0 ≤ u < c → 0 ≤ v < r →
  Conway.rule
    (foldr Z.add 0
       ((λ d, Z.b2z (zero_or_one c (u + d.1) && zero_or_one r (v + d.2)))
          <$> Conway.offsets))
    (Z.b2z (zero_or_one c (u + 0) && zero_or_one r (v + 0))) =
  Z.b2z (zero_or_one c (u + 0) && zero_or_one r (v + 0)).
Proof.
  intros Hc Hr Hu Hv.
  destruct (zero_or_one_tests c u Hc Hu) as (B1 & B2 & B3).
  destruct (zero_or_one_tests r v Hr Hv) as (A1 & A2 & A3).
  unfold Conway.offsets; cbn [fmap list_fmap foldr fst snd].
  flag (zero_or_one c (u + -1)) B1;
  flag (zero_or_one c (u + 0)) B2;
  flag (zero_or_one c (u + 1)) B3;
  try (exfalso; lia);
  flag (zero_or_one r (v + -1)) A1;
  flag (zero_or_one r (v + 0)) A2;
  flag (zero_or_one r (v + 1)) A3;
  first [reflexivity | exfalso; lia].
Qed.

Lemma block_is_fixed (c r x y : Z) :
  3 ≤ c → 3 ≤ r → 0 ≤ x < c → 0 ≤ y < r →
  Conway.step c r (block c r x y) = block c r x y.
Proof.
  intros Hc Hr Hx Hy. unfold block.
  apply step_pattern; [lia..|]. intros x' y' Hx' Hy'.
  rewrite <- (zero_or_one_mod c (x' - x)), <- (zero_or_one_mod r (y' - y)).
  rewrite <- (Z.add_0_r ((x' - x) mod c)), <- (Z.add_0_r ((y' - y) mod r)).
  etrans;
    [|apply (block_cell_stays c r ((x' - x) mod c) ((y' - y) mod r));
      try apply Z.mod_pos_bound; lia].
  f_equal. f_equal. apply list_fmap_ext. intros _ [dx dy] _. simpl.
  by rewrite !moved_zero_or_one by lia.
Qed.

(** X12.  A two by two block anywhere on a board of at least three columns
    and three rows is a still life: [next] reports no birth and no death,
    reports as survived exactly the cells of the Live-Set, and leaves the
    grid as it was. *)
Theorem block_is_still_life (m : Model) (x y : Z)
    (Hok : engine_ok m) (Hlive : live_ok m)
    (Hc : 3 ≤ cols m) (Hr : 3 ≤ rows m)
    (Hx : 0 ≤ x < cols m) (Hy : 0 ≤ y < rows m)
    (Hg : grid m = block (cols m) (rows m) x y) :
  born (next m).1 = [] ∧ died (next m).1 = [] ∧
  (∀ i, i ∈ survived (next m).1 ↔ i ∈ alive m) ∧
  grid (next m).2 = grid m.
Proof.
  assert (grid (next m).2 = grid m) as Hkept.
  { rewrite (next_grid m Hok Hlive), Hg. by apply block_is_fixed. }
  destruct (proj2 (grid_kept_iff m Hok) Hkept) as [Hb Hd].
  split_and!; try done. intros i.
  destruct (buckets_before_after m i Hok Hlive) as (_ & _ & ->).
  unfold alive_before, alive_after, get. cbn [fst]. rewrite Hkept.
  rewrite (live_iff m i Hlive). split.
  - intros [H _]. destruct (JS.read (grid m) i) as [v|] eqn:E; [|done].
    pose proof (read_Some_range _ _ _ E) as Hrg.
    rewrite (read_cell (grid m) i Hrg) in E. injection E as <-.
    destruct (cell_binary (grid m) i (ok_binary m Hok)) as [E|E];
      rewrite E in *; done.
  - intros ->. done.
Qed.

Lemma block_is_still_life_witness :
  let m := (init (new_Model 3 3) (block 3 3 2 2)).2 in
  born (next m).1 = [] ∧ died (next m).1 = [] ∧
  (∀ i, i ∈ survived (next m).1 ↔ i ∈ alive m) ∧
  grid (next m).2 = grid m.
Proof.
  intros m.
  assert (engine_ok m) as Hok.
  { split; try (by vm_compute); by apply (bool_decide_unpack _); vm_compute. }
  assert (live_ok m) as Hlive by (by apply (bool_decide_unpack _); vm_compute).
  assert (cols m = 3) as Ec by (by vm_compute).
  assert (rows m = 3) as Er by (by vm_compute).
  assert (grid m = block (cols m) (rows m) 2 2) as Hg by (by vm_compute).
  apply (block_is_still_life m 2 2 Hok Hlive); [lia..|exact Hg].
Defined.

(** * Further properties of the notifier *)

Section SignalLists.
Context {Arg : Type}.

Import Signal.

Lemma indexOf_first (pre post : list fn) (l : fn) :
  l ∉ pre → indexOf (pre ++ l :: post) l = Some (length pre).
Proof.
  induction pre as [|x pre IH]; intros Hn; simpl.
  - by rewrite decide_True.
  - rewrite decide_False by set_solver. rewrite IH by set_solver. done.
Qed.

Lemma current_splice (s : State Arg) (ix : nat) :
  current (splice1 ix (slice0 s)) = delete ix (current s).
Proof.
  unfold splice1, current at 1; simpl.
  rewrite list_lookup_alter_eq, lookup_app_r by lia.
  by rewrite Nat.sub_diag.
Qed.

Lemma untap_first (s : State Arg) (l : fn) (pre post : list fn) :
  current s = pre ++ l :: post → l ∉ pre →
  current (untap l s) = pre ++ post.
Proof.
  intros Hc Hn. unfold untap. rewrite Hc, (indexOf_first pre post l Hn).
  rewrite current_splice, Hc. apply delete_middle.
Qed.

Lemma current_tap (s : State Arg) (l : fn) :
  current (tap l s) = current s ++ [l].
Proof.
  unfold tap, push, current at 1; simpl.
  rewrite list_lookup_alter_eq, lookup_app_r by lia.
  by rewrite Nat.sub_diag.
Qed.

(** X13.  [untap] removes the first registration of the listener and keeps
    the others in their order: a listener registered twice is still
    registered once afterwards. *)
Theorem untap_removes_first_registration (s : State Arg) (l : fn)
    (pre post : list fn)
    (Hcur : current s = pre ++ l :: post) (Hfirst : l ∉ pre) :
  current (untap l s) = pre ++ post.
Proof. by apply untap_first. Qed.

(** X14.  Registering a listener that is not registered and removing it
    again gives back the listeners there were; when it was registered
    already, it is the earlier registration that goes and the new one stays
    last. *)
Theorem tap_then_untap (s : State Arg) (l : fn) :
  (l ∉ current s → current (untap l (tap l s)) = current s) ∧
  (∀ pre post, current s = pre ++ l :: post → l ∉ pre →
     current (untap l (tap l s)) = pre ++ post ++ [l]).
Proof.
  split.
  - intros Hn. rewrite (untap_first (tap l s) l (current s) []).
    + by rewrite app_nil_r.
    + apply current_tap.
    + done.
  - intros pre post Hc Hn.
    rewrite (untap_first (tap l s) l pre (post ++ [l])); [done| |done].
    rewrite current_tap, Hc. by rewrite <- app_assoc.
Qed.

End SignalLists.

Section SignalRaise.
Context {Arg : Type}.
Variable body : Signal.fn → list Signal.Op.

Import Signal.

(** Two states with the same arrays and the same reference. *)
Lemma run_op_store (s1 s2 : State Arg) (o : Op) :
  arrays s1 = arrays s2 → listeners s1 = listeners s2 →
  arrays (run_op s1 o) = arrays (run_op s2 o) ∧
  listeners (run_op s1 o) = listeners (run_op s2 o).
Proof.
  intros Ea El. destruct o as [l|l]; simpl.
  - unfold tap, push, slice0, current; simpl. by rewrite Ea, El.
  - unfold untap, current. rewrite Ea, El.
    destruct (indexOf _ _); [|done].
    unfold splice1, slice0, current; simpl. by rewrite Ea, El.
Qed.

Lemma run_ops_store (ops : list Op) (s1 s2 : State Arg) :
  arrays s1 = arrays s2 → listeners s1 = listeners s2 →
  arrays (fold_left run_op ops s1) = arrays (fold_left run_op ops s2) ∧
  listeners (fold_left run_op ops s1) = listeners (fold_left run_op ops s2).
Proof.
  revert s1 s2. induction ops as [|o ops IH]; intros s1 s2 Ea El; [done|].
  simpl. destruct (run_op_store s1 s2 o Ea El). by apply IH.
Qed.

Lemma forEach_from_store (rest k addr : nat) (args : Arg) (s : State Arg)
    (arr : list fn) :
  arrays s !! addr = Some arr →
  (k + rest)%nat = length arr →
  let t := fold_left run_op (mjoin (body <$> drop k arr)) s in
  arrays (forEach_from body addr k rest args s) = arrays t ∧
  listeners (forEach_from body addr k rest args s) = listeners t.
Proof.
  revert k s. induction rest as [|rest IH]; intros k s Harr Hlen; cbv zeta.
  - simpl. rewrite drop_ge by lia. done.
  - simpl. rewrite Harr; simpl.
    destruct (lookup_lt_is_Some_2 arr k) as [l Hl]; [lia|].
    rewrite Hl, (drop_S _ _ _ Hl), fmap_cons. simpl.
    rewrite fold_left_app.
    destruct (call_frame body l args s addr) as [E1 _];
      [by eapply lookup_lt_Some|].
    destruct (IH (S k) (call body l args s)) as [F1 F2];
      [congruence|lia|]. cbv zeta in F1, F2. rewrite F1, F2.
    apply run_ops_store; apply (run_ops_store (body l)); done.
Qed.

(** X15.  The listeners a [raise] leaves registered are those that result
    from the [tap] and [untap] calls of the listeners it called, made in the
    order of the calls; so what a listener registers or removes while it is
    called takes effect from the next [raise] on. *)
Theorem raise_applies_listener_changes (s : State Arg) (args : Arg) :
  current (raise body args s) =
  current (fold_left run_op (mjoin (body <$> current s)) s).
Proof.
  destruct (arrays s !! listeners s) as [arr|] eqn:E.
  - assert (current s = arr) as Hc by (unfold current; by rewrite E).
    unfold raise. rewrite Hc.
    destruct (forEach_from_store (length arr) 0 (listeners s) args s arr)
      as [F1 F2]; [done..|]. cbv zeta in F1, F2. rewrite drop_0 in F1, F2.
    unfold current. by rewrite F1, F2.
  - assert (current s = []) as Hc by (unfold current; by rewrite E).
    unfold raise. rewrite Hc. done.
Qed.

End SignalRaise.

Lemma untap_removes_first_registration_witness :
  let s : Signal.State unit :=
    Signal.tap 4%nat (Signal.tap 9%nat (Signal.tap 4%nat Signal.create)) in
  Signal.current (Signal.untap 4%nat s) = [] ++ [9%nat; 4%nat].
Proof.
  intros s.
  apply (untap_removes_first_registration s 4%nat [] [9%nat; 4%nat]).
  - reflexivity.
  - apply not_elem_of_nil.
Defined.

Lemma tap_then_untap_witness :
  let s : Signal.State unit := Signal.tap 9%nat Signal.create in
  Signal.current (Signal.untap 4%nat (Signal.tap 4%nat s)) = Signal.current s.
Proof.
  intros s. apply (proj1 (tap_then_untap s 4%nat)).
  by apply (bool_decide_unpack _); vm_compute.
Defined.

(** * Further properties of the worker *)

(** X16.  [InitLife] with positive dimensions and as many values as cells
    starts the worker afresh whatever it has done before: the engine it then
    holds depends on the message alone, its grid is the low bits of the
    values, its Live-Set the indices holding 1, and the one message sent in
    answer carries one change set with those indices as born. *)
Theorem initLife_starts_afresh (w : Host.Worker) (c r : Z) (vals : list Z)
    (Hc : 0 < c) (Hr : 0 < r) (H31 : r ≤ 2 ^ 31)
    (Hlen : Z.of_nat (length vals) = c * r) :
  let m := (init (new_Model c r) vals).2 in
  Host.initLife w c r vals =
    Some {| Host.model := Some m;
            Host.sent := Host.sent w ++
              [HereSome [ {| born := odd_indices 0 vals; survived := [];
                             died := [] |} ]] |} ∧
  grid m = JS.low_bit <$> vals ∧
  alive m = odd_indices 0 vals ∧
  engine_ok m ∧ live_ok m.
Proof.
  cbv zeta.
  assert (size (new_Model c r) = c * r) as Hs.
  { unfold size, new_Model; simpl. rewrite length_replicate. nia. }
  destruct (init_fresh (new_Model c r) vals) as [(Hg & _ & Hch & _) Ha];
    [done|by rewrite Hs|].
  destruct (after_init_ok c r vals Hc Hr H31 Hlen) as [Hok Hlv].
  split_and!; try done.
  unfold Host.initLife, Model_constructor, Host.send.
  replace (c * r <? 0) with false by (symmetry; apply Z.ltb_ge; nia).
  cbn [mbind option_bind].
  rewrite Ha in Hch.
  destruct (init (new_Model c r) vals) as [ch m]. simpl in *. by rewrite Hch.
Qed.

Lemma initLife_starts_afresh_witness :
  let used := (next (init (new_Model 5 5)
                       (Conway.horizontal_blinker 5 5 2 2)).2).2 in
  let w := {| Host.model := Some used; Host.sent := [HereSome []] |} in
  Host.initLife w 2 2 [1; 0; 0; 3] =
    Some {| Host.model := Some (init (new_Model 2 2) [1; 0; 0; 3]).2;
            Host.sent :=
              [HereSome [];
               HereSome [ {| born := [0; 3]; survived := [];
                             died := [] |} ]] |} ∧
  alive (init (new_Model 2 2) [1; 0; 0; 3]).2 = [0; 3].
Proof.
  intros used w.
  destruct (initLife_starts_afresh w 2 2 [1; 0; 0; 3])
    as (H1 & _ & H2 & _); [lia..|reflexivity|].
  split; [exact H1|exact H2].
Defined.

Lemma needSome_loop_generations (n : nat) (m : Model) (acc : list Changes) :
  engine_ok m → live_ok m →
  let m' := (Host.needSome_loop n m acc).2 in
  grid m' = Nat.iter n (Conway.step (cols m) (rows m)) (grid m) ∧
  cols m' = cols m ∧ rows m' = rows m.
Proof.
  revert m acc. induction n as [|n IH]; intros m acc Hok Hlv; cbv zeta;
    cbn [Host.needSome_loop]; [done|].
  pose proof (next_engine_ok m Hok) as Hok'.
  pose proof (next_live_ok m Hok Hlv) as Hlv'.
  pose proof (next_grid m Hok Hlv) as Hg.
  destruct (next_buckets m) as (_ & _ & _ & _ & _ & _ & Ec & Er).
  destruct (next m) as [ch m1]. cbn [snd] in *.
  destruct (IH m1 (acc ++ [ch]) Hok' Hlv') as (E1 & E2 & E3).
  cbv zeta in E1, E2, E3. rewrite E1, E2, E3, Ec, Er, Hg.
  by rewrite Nat.iter_succ_r.
Qed.

(** X17.  On a worker whose engine is in a state with the Live-Set equal to
    the set of the indices holding 1, [NeedSome] of [n] is answered, and
    leaves the engine with the grid that [n] generations of Conway's rule
    make of the grid it had, with the same dimensions and again in such a
    state. *)
Theorem needSome_advances_n_generations (w : Host.Worker) (m : Model)
    (n : nat)
    (Hm : Host.model w = Some m) (Hok : engine_ok m) (Hlive : live_ok m) :
  ∃ w' m',
    Host.onmessage w (NeedSome (Z.of_nat n)) = Some w' ∧
    Host.model w' = Some m' ∧
    grid m' = Nat.iter n (Conway.step (cols m) (rows m)) (grid m) ∧
    cols m' = cols m ∧ rows m' = rows m ∧
    engine_ok m' ∧ live_ok m'.
Proof.
  eexists _, _. rewrite (needSome_batch w m n Hm).
  split; [done|]. cbn [Host.model]. split; [done|].
  destruct (needSome_loop_generations n m [] Hok Hlive) as (E1 & E2 & E3).
  destruct (after_generations_ok n m [] Hok Hlive) as [F1 F2].
  done.
Qed.

Lemma needSome_advances_n_generations_witness :
  let m := (init (new_Model 5 5) (Conway.horizontal_blinker 5 5 2 2)).2 in
  let w := {| Host.model := Some m;
              Host.sent := [HereSome [ {| born := [11; 12; 13];
                                          survived := []; died := [] |} ]] |} in
  ∃ w' m',
    Host.onmessage w (NeedSome 2) = Some w' ∧
    Host.model w' = Some m' ∧
    grid m' = Conway.step 5 5 (Conway.step 5 5
                (Conway.horizontal_blinker 5 5 2 2)).
Proof.
  intros m w.
  assert (live_ok m) as Hlive by (by apply (bool_decide_unpack _); vm_compute).
  destruct (needSome_advances_n_generations w m 2 eq_refl blinker_engine_ok
              Hlive) as (w' & m' & H1 & H2 & H3 & _).
  exists w', m'. split; [exact H1|]. split; [exact H2|]. exact H3.
Defined.

(** X18.  [NeedSome] with [n] at most 0 computes nothing: it is answered by
    an empty batch and the engine stays as it was, also when there is no
    engine yet.  With [n] at least 1 and no engine yet the handler fails
    and sends nothing. *)
Theorem needSome_without_work_or_engine (w : Host.Worker) (n : Z) :
  (n ≤ 0 →
   Host.onmessage w (NeedSome n) =
     Some {| Host.model := Host.model w;
             Host.sent := Host.sent w ++ [HereSome []] |}) ∧
  (1 ≤ n → Host.model w = None → Host.onmessage w (NeedSome n) = None).
Proof.
  unfold Host.onmessage, Host.needSome. split.
  - intros Hn. replace (Z.to_nat n) with 0%nat by lia. done.
  - intros Hn ->. destruct (Z.to_nat n) eqn:E; [lia|done].
Qed.

Lemma needSome_without_work_or_engine_witness :
  Host.onmessage Host.start (NeedSome (-2)) =
    Some {| Host.model := None; Host.sent := [HereSome []] |} ∧
  Host.onmessage Host.start (NeedSome 20) = None.
Proof.
  destruct (needSome_without_work_or_engine Host.start (-2)) as [H1 _].
  destruct (needSome_without_work_or_engine Host.start 20) as [_ H2].
  split; [apply H1; lia|apply H2; [lia|reflexivity]].
Defined.

Lemma worker_answers_one (w w' : Host.Worker) (msg : Msg) :
  Host.onmessage w msg = Some w' →
  ∃ answers,
    Host.sent w' = Host.sent w ++ answers ∧
    length answers = length (filter (λ x, is_request x) [msg]) ∧
    Forall (λ a, is_response a) answers.
Proof.
  destruct msg as [c r vals|n|cs]; simpl.
  - unfold Host.initLife, Model_constructor.
    destruct (c * r <? 0); [done|]. cbn [mbind option_bind].
    destruct (init (new_Model c r) vals) as [ch m]. simpl.
    intros [= <-]. eexists [_]. split; [done|]. split; [done|].
    by repeat constructor.
  - unfold Host.needSome.
    destruct (Z.to_nat n) as [|k] eqn:E, (Host.model w) as [m|] eqn:Em;
      try done.
    + intros [= <-]. eexists [_]. simpl. split; [done|].
      split; [done|]. by repeat constructor.
    + intros [= <-]. eexists [_]. simpl. split; [done|].
      split; [done|]. by repeat constructor.
    + destruct (Host.needSome_loop (S k) m []) as [chs m'].
      intros [= <-]. eexists [_]. simpl. split; [done|].
      split; [done|]. by repeat constructor.
  - intros [= <-]. exists []. by rewrite app_nil_r.
Qed.

(** X19.  The worker only ever adds to what it has sent: handling a
    sequence of messages without failing appends one [HereSome] for each
    [InitLife] and [NeedSome] of the sequence and nothing for anything
    else. *)
Theorem worker_answers_each_request_once (msgs : list Msg)
    (w w' : Host.Worker) (Hdone : handle_all w msgs = Some w') :
  ∃ answers,
    Host.sent w' = Host.sent w ++ answers ∧
    length answers = length (filter (λ x, is_request x) msgs) ∧
    Forall (λ a, is_response a) answers.
Proof.
  revert w Hdone. induction msgs as [|msg msgs IH]; intros w Hdone.
  - injection Hdone as <-. exists []. by rewrite app_nil_r.
  - cbn [handle_all] in Hdone.
    destruct (Host.onmessage w msg) as [w1|] eqn:E1; [|done].
    cbn [mbind option_bind] in Hdone.
    destruct (worker_answers_one w w1 msg E1) as (a1 & S1 & L1 & F1).
    destruct (IH w1 Hdone) as (a2 & S2 & L2 & F2).
    exists (a1 ++ a2). split_and!.
    + by rewrite S2, S1, app_assoc.
    + change (msg :: msgs) with ([msg] ++ msgs).
      rewrite filter_app, !length_app. lia.
    + by apply Forall_app.
Qed.

Lemma worker_answers_each_request_once_witness :
  let w' := {| Host.model := Some (init (new_Model 2 2) [1; 0; 0; 0]).2;
               Host.sent := [HereSome [ {| born := [0]; survived := [];
                                           died := [] |} ]] |} in
  handle_all Host.start [HereSome []; InitLife 2 2 [1; 0; 0; 0]] = Some w' ∧
  ∃ answers,
    Host.sent w' = Host.sent Host.start ++ answers ∧
    length answers =
      length (filter (λ x, is_request x) [HereSome []; InitLife 2 2 [1; 0; 0; 0]]) ∧
    Forall (λ a, is_response a) answers.
Proof.
  intros w'.
  assert (handle_all Host.start [HereSome []; InitLife 2 2 [1; 0; 0; 0]] =
          Some w') as E by reflexivity.
  split; [exact E|].
  exact (worker_answers_each_request_once
           [HereSome []; InitLife 2 2 [1; 0; 0; 0]] Host.start w' E).
Defined.

(** * Further properties of the proxy *)

Lemma receive_all_pending (cs : list Changes) (p : Proxy.ModelInWorker) :
  Proxy.pendingRequests (fold_left Proxy.receive cs p) =
  Proxy.pendingRequests p -
    Z.of_nat (Z.to_nat (Proxy.pendingRequests p) `min` length cs) ∧
  Proxy.cols (fold_left Proxy.receive cs p) = Proxy.cols p ∧
  Proxy.rows (fold_left Proxy.receive cs p) = Proxy.rows p.
Proof.
  revert p. induction cs as [|c cs IH]; intros p.
  - simpl. split; [lia|done].
  - cbn [fold_left]. destruct (IH (Proxy.receive p c)) as (E1 & E2 & E3).
    rewrite E1, E2, E3. unfold Proxy.receive.
    destruct (Z.ltb_spec 0 (Proxy.pendingRequests p)) as [Hp|Hp]; simpl;
      (split; [lia|done]).
Qed.

(** X20.  When a [HereSome] arrives, as many of its change sets as there are
    pending pulls go to the listeners, in their order, and the others to the
    end of the queue, in their order; the count of pending pulls goes down by
    the number delivered.  Nothing is posted, and the change set recorded as
    last dispatched stays the one that the last [next()] with a filled queue
    dispatched. *)
Theorem arrival_serves_pending_first (p : Proxy.ModelInWorker)
    (cs : list Changes) :
  let k := Z.to_nat (Proxy.pendingRequests p) in
  let q := Proxy.onmessage p (HereSome cs) in
  Proxy.notified q = Proxy.notified p ++ take k cs ∧
  Proxy.changes q = Proxy.changes p ++ drop k cs ∧
  Proxy.pendingRequests q =
    Proxy.pendingRequests p - Z.of_nat (k `min` length cs) ∧
  Proxy.posted q = Proxy.posted p ∧
  Proxy.lastChange q = Proxy.lastChange p.
Proof.
  cbv zeta. unfold Proxy.onmessage.
  destruct (receive_all cs p) as (E1 & E2 & E3 & E4).
  destruct (receive_all_pending cs p) as (E5 & _).
  done.
Qed.

Lemma happen_snoc (hs : list Happening) (h : Happening) :
  pulls (hs ++ [h]) =
    (pulls hs + match h with Pulled => 1 | Arrived _ => 0 end)%nat ∧
  arrivals (hs ++ [h]) =
    arrivals hs ++ match h with Pulled => [] | Arrived cs => cs end.
Proof.
  induction hs as [|h' hs [IH1 IH2]]; simpl.
  - destruct h; simpl; by rewrite ?app_nil_r.
  - destruct h'; simpl; rewrite IH1, IH2; split; try done.
    by rewrite app_assoc.
Qed.

Lemma happen_all (hs : list Happening) (c r : Z) (values : list Z) :
  let p := fold_left happen hs (Proxy.constructor c r values) in
  Proxy.notified p = take (pulls hs) (arrivals hs) ∧
  Proxy.changes p = drop (pulls hs) (arrivals hs) ∧
  Proxy.pendingRequests p = Z.of_nat (pulls hs - length (arrivals hs)).
Proof.
  induction hs as [|h hs IH] using rev_ind; cbv zeta.
  - done.
  - rewrite fold_left_app. cbn [fold_left].
    destruct IH as (N & C & P). destruct (happen_snoc hs h) as [-> ->].
    set (p := fold_left happen hs (Proxy.constructor c r values)) in *.
    destruct h as [|cs]; cbn [happen].
    + rewrite app_nil_r. unfold Proxy.next.
      destruct (Proxy.changes p) as [|ch rest] eqn:E; cbn.
      * assert (length (arrivals hs) ≤ pulls hs)%nat as Hle.
        { apply (f_equal length) in C. rewrite length_drop in C.
          simpl in C. lia. }
        rewrite N, P. rewrite !take_ge, drop_ge by lia.
        split_and!; try done. lia.
      * assert (arrivals hs !! pulls hs = Some ch) as Hl.
        { rewrite <- (Nat.add_0_r (pulls hs)), <- lookup_drop, <- C. done. }
        pose proof (lookup_lt_Some _ _ _ Hl).
        rewrite Nat.add_1_r, (take_S_r _ _ _ Hl), N.
        split_and!; [done| |rewrite P; lia].
        rewrite (drop_S _ _ _ Hl) in C. by injection C.
    + destruct (receive_all cs p) as (E1 & E2 & _).
      destruct (receive_all_pending cs p) as (E5 & _).
      cbv zeta in E1, E2. unfold Proxy.onmessage.
      rewrite E1, E2, E5, N, C, P, Nat.add_0_r, Nat2Z.id.
      rewrite take_app, drop_app, length_app. split_and!; [done..|lia].
Qed.

(** X21.  As long as [randomize] is not called, the proxy hands the change
    sets on in the order in which they arrived, each once: after any
    sequence of pulls and arrivals the listeners have been given the first
    change sets that arrived, as many as there were pulls (or all of them, if
    fewer arrived), the queue holds the rest, and the count of pending pulls
    is the number of pulls not yet served. *)
Theorem proxy_keeps_arrival_order (hs : list Happening) (c r : Z)
    (values : list Z) :
  let p := fold_left happen hs (Proxy.constructor c r values) in
  Proxy.notified p = take (pulls hs) (arrivals hs) ∧
  Proxy.changes p = drop (pulls hs) (arrivals hs) ∧
  Proxy.pendingRequests p = Z.of_nat (pulls hs - length (arrivals hs)).
Proof. apply happen_all. Qed.

(** X22.  [randomize] after a change set of the engine has been dispatched
    by [next()] replaces the queue by one change set that reports nothing
    born and nothing survived and, as died, each cell that is alive in the
    generation dispatched, once. *)
Theorem randomize_wipes_the_dispatched_generation (m : Model)
    (p : Proxy.ModelInWorker) (rest : list Changes) (values : list Z)
    (Hok : engine_ok m) (Hlive : live_ok m)
    (Hq : Proxy.changes p = (next m).1 :: rest) :
  ∃ wipe,
    Proxy.changes (Proxy.randomize (Proxy.next p) values) = [wipe] ∧
    born wipe = [] ∧ survived wipe = [] ∧
    NoDup (died wipe) ∧
    ∀ i, i ∈ died wipe ↔ JS.read (grid (next m).2) i = Some 1.
Proof.
  exists {| born := []; survived := [];
            died := born (next m).1 ++ survived (next m).1 |}.
  split.
  { unfold Proxy.randomize, Proxy.next. rewrite Hq. reflexivity. }
  cbn [born survived died]. split; [done|]. split; [done|].
  destruct (next_buckets m) as (Eb & _ & Es & Ea & _).
  pose proof (next_live_ok m Hok Hlive) as Hlv'.
  split.
  - rewrite Eb, Es. apply NoDup_app. split_and!.
    + apply NoDup_filter, activeCells_spec.
    + intros i [H1 _]%list_elem_of_filter [H2 _]%list_elem_of_filter.
      destruct (will_change m i); done.
    + apply NoDup_filter, activeCells_spec.
  - intros i. rewrite <- (live_iff _ i Hlv'), Ea, Eb, Es.
    rewrite elem_of_app, !list_elem_of_filter.
    destruct (will_live m i), (will_change m i); simpl; tauto.
Qed.

Lemma randomize_wipes_the_dispatched_generation_witness :
  let m := (init (new_Model 5 5) (Conway.horizontal_blinker 5 5 2 2)).2 in
  let p := Proxy.onmessage (Proxy.constructor 5 5 [])
             (HereSome [(next m).1]) in
  ∃ wipe,
    Proxy.changes (Proxy.randomize (Proxy.next p) [1]) = [wipe] ∧
    born wipe = [] ∧ survived wipe = [] ∧
    NoDup (died wipe) ∧
    ∀ i, i ∈ died wipe ↔ JS.read (grid (next m).2) i = Some 1.
Proof.
  intros m p.
  assert (live_ok m) as Hlive by (by apply (bool_decide_unpack _); vm_compute).
  apply (randomize_wipes_the_dispatched_generation m p [] [1]
           blinker_engine_ok Hlive).
  reflexivity.
Defined.

(** * The proxy and the worker together *)






